(** * Model Analyzer: configuration parsing and result ranking

    A shallow embedding of the Python sources

    - [model_analyzer/triton/model/model_config_utils.py]
    - [model_analyzer/triton/model/model_config.py]
    - [model_analyzer/result/result_comparator.py]
    - [model_analyzer/result/run_result.py]
    - [model_analyzer/result/result_manager.py]

    Python exceptions are an explicit outcome, dictionaries are finite
    maps (or association lists where iteration order is observable),
    objects shared between two places are references into a store,
    numbers are exact rationals (floating-point rounding is left out),
    text is made of the code points a [string] can hold, and the two
    unbounded [while True] loops of the parser are indexed by fuel.
    The interpreter's recursion limit is left out: what is stated of a
    parse that returns is stated of calls that stay within it. *)

From Stdlib Require Import ZArith QArith Lqa String Ascii List Lia.
From Stdlib Require Import DecimalString DecimalNat.
From stdpp Require Import base option list gmap strings.

Set Warnings "-register-all".
Set Default Proof Using "Type".

(** ** Outcomes of Python computations *)

(** The exceptions the modelled code can raise.  The repository has a
    single exception class of its own, [TritonModelAnalyzerException];
    the others are Python built-ins. *)
Inductive exn : Type :=
| TritonModelAnalyzerException (msg : string)
| IndexError
| TypeError
| ValueError
| KeyError (key : string)
| AttributeError
| OSError.

(** [OutOfFuel] is produced only by the fuel-indexed loops: the
    computation has not finished within the given number of steps. *)
Inductive outcome (A : Type) : Type :=
| Ok (a : A)
| Raise (e : exn)
| OutOfFuel.

Arguments Ok {A} a.
Arguments Raise {A} e.
Arguments OutOfFuel {A}.

(** Sequencing, in stdpp's monad notation: [x ← m; k]. *)
#[global] Instance outcome_bind : MBind outcome := λ A B k m,
  match m with
  | Ok a => k a
  | Raise e => Raise e
  | OutOfFuel => OutOfFuel
  end.

#[global] Instance outcome_ret : MRet outcome := @Ok.

(** Left-to-right evaluation of a comprehension whose body may raise. *)
Fixpoint mapM {A B : Type} (f : A → outcome B) (l : list A) : outcome (list B) :=
  match l with
  | [] => Ok []
  | x :: l' => y ← f x; ys ← mapM f l'; Ok (y :: ys)
  end.

Definition raises {A : Type} (m : outcome A) : Prop := ∃ e, m = Raise e.

(** A proof step for closed computations: [returns m E] checks by
    evaluation that [m] returns a value, names the value and keeps the
    equation [E]. *)
Ltac returns m E :=
  let Hs := fresh in
  assert (match m with Ok _ => true | _ => false end = true) as Hs
    by (vm_compute; reflexivity);
  destruct m eqn:E; [clear Hs|discriminate Hs..].

(** ** Python [str] primitives used by the parser *)

Module PyStr.

Definition nl : ascii := "010"%char.
Definition dquote : ascii := "034"%char.

Definition chr (c : ascii) : string := String c EmptyString.

(** [str.isspace] on the code points a [string] can hold. *)
Definition isspace (c : ascii) : bool :=
  let n := nat_of_ascii c in
  ((9 <=? n) && (n <=? 13)) || ((28 <=? n) && (n <=? 32))
  || (n =? 133) || (n =? 160).

Fixpoint len (s : string) : nat :=
  match s with
  | EmptyString => 0
  | String _ s' => S (len s')
  end.

Fixpoint lstrip (s : string) : string :=
  match s with
  | EmptyString => EmptyString
  | String c s' => if isspace c then lstrip s' else s
  end.

Fixpoint rstrip (s : string) : string :=
  match s with
  | EmptyString => EmptyString
  | String c s' =>
      match rstrip s' with
      | EmptyString => if isspace c then EmptyString else chr c
      | r => String c r
      end
  end.

Definition strip (s : string) : string := lstrip (rstrip s).

Fixpoint index_of (c : ascii) (s : string) : option nat :=
  match s with
  | EmptyString => None
  | String a s' => if Ascii.eqb a c then Some 0 else S <$> index_of c s'
  end.

(** [s.find(c)] for a one-character needle: lowest index, or -1. *)
Definition find (c : ascii) (s : string) : Z :=
  match index_of c s with
  | Some i => Z.of_nat i
  | None => (-1)%Z
  end.

Fixpoint take (n : nat) (s : string) : string :=
  match n, s with
  | S n', String c s' => String c (take n' s')
  | _, _ => EmptyString
  end.

Fixpoint drop (n : nat) (s : string) : string :=
  match n, s with
  | S n', String _ s' => drop n' s'
  | _, _ => s
  end.

(** A slice bound: negative bounds count from the end, and bounds
    beyond either end are clipped. *)
Definition bound (s : string) (k : Z) : nat :=
  if (k <? 0)%Z then Z.to_nat (k + Z.of_nat (len s)) else Z.to_nat k.

(** [s[:k]] and [s[k:]]. *)
Definition slice_to (s : string) (k : Z) : string := take (bound s k) s.
Definition slice_from (s : string) (k : Z) : string := drop (bound s k) s.

(** [s.replace(c, '')] for a one-character [c]. *)
Fixpoint remove (c : ascii) (s : string) : string :=
  match s with
  | EmptyString => EmptyString
  | String a s' => if Ascii.eqb a c then remove c s' else String a (remove c s')
  end.

(** [s.startswith(sub)] and [sub in s], for reading exception messages. *)
Fixpoint startswith (sub s : string) : bool :=
  match sub, s with
  | EmptyString, _ => true
  | String a sub', String b s' => Ascii.eqb a b && startswith sub' s'
  | String _ _, EmptyString => false
  end.

Fixpoint contains (sub s : string) : bool :=
  startswith sub s ||
  match s with
  | EmptyString => false
  | String _ s' => contains sub s'
  end.

End PyStr.

(** ** The parsed configuration tree (model_config_utils.py) *)

(** What [parse_dict] and [parse_list] build: Python [str], [list] and
    [dict] values. *)
Inductive ConfigValue : Type :=
| Scalar (s : string)
| ListV (l : list ConfigValue)
| Message (m : gmap string ConfigValue).

Section parser.
Import PyStr.

(** [parse_dict(config_str, output)] and [parse_list(config_str, output)].
    Each unit of fuel pays for one iteration of a [while True] loop;
    the in-place updates of [output] are returned with the remaining
    text. *)
Fixpoint parse_dict (fuel : nat) (config_str : string)
    (output : gmap string ConfigValue)
    : outcome (string * gmap string ConfigValue) :=
  match fuel with
  | O => OutOfFuel
  | S fuel =>
    let config_str := lstrip config_str in
    let next_newline := find nl config_str in
    if (next_newline <=? 0)%Z then Ok (config_str, output)
    else
      let next_item := slice_to config_str next_newline in
      let key_delimiter := find ":" next_item in
      let list_delimiter := find "[" next_item in
      let dict_delimiter := find "{" next_item in
      if (key_delimiter >? -1)%Z then
        let next_val :=
          remove dquote (lstrip (slice_from next_item (key_delimiter + 1))) in
        parse_dict fuel (slice_from config_str (next_newline + 1))
          (<[slice_to next_item key_delimiter := Scalar next_val]> output)
      else if (list_delimiter >? -1)%Z then
        '(rest, next_list) ←
          parse_list fuel (slice_from config_str (list_delimiter + 1)) [];
        parse_dict fuel (lstrip rest)
          (<[rstrip (slice_to next_item list_delimiter) := ListV next_list]> output)
      else if (dict_delimiter >? -1)%Z then
        '(rest, next_dict) ←
          parse_dict fuel (slice_from config_str (dict_delimiter + 1)) ∅;
        parse_dict fuel (lstrip rest)
          (<[rstrip (slice_to next_item dict_delimiter) := Message next_dict]> output)
      else Ok (config_str, output)
  end
with parse_list (fuel : nat) (config_str : string)
    (output : list ConfigValue)
    : outcome (string * list ConfigValue) :=
  match fuel with
  | O => OutOfFuel
  | S fuel =>
    let config_str := lstrip config_str in
    match config_str with
    | EmptyString => Raise IndexError
    | String c0 _ =>
      if Ascii.eqb c0 "]" then Ok (lstrip (slice_from config_str 1), output)
      else if Ascii.eqb c0 "{" then
        '(rest, next_dict) ←
          parse_dict fuel (slice_from (lstrip config_str) 1) ∅;
        parse_list fuel (slice_from (lstrip rest) 1)
          (output ++ [Message next_dict])
      else
        let comma := find "," config_str in
        let end_list := find "]" config_str in
        let delimiter :=
          if (comma <? 0)%Z || (comma >? end_list)%Z then end_list else comma in
        parse_list fuel (slice_from config_str (delimiter + 1))
          (output ++ [Scalar (strip (slice_to config_str delimiter))])
    end
  end.

(** The text holds no closing bracket. *)
Definition no_close (s : string) : Prop := index_of "]" s = None.

(** [os.path.join(model_path, "config.pbtxt")] on a POSIX system. *)
Definition path_join (dir file : string) : string :=
  match dir with
  | EmptyString => file
  | _ =>
      if String.eqb (slice_from dir (-1)) "/" then dir +:+ file
      else dir +:+ "/" +:+ file
  end.

(** The files that can be opened, by path, with the text that [read]
    returns.  A file whose bytes do not decode is not represented. *)
Definition filesystem : Type := string → option string.

(** [parse_model_config(model_path)]: [open] raises an [OSError] when
    the file cannot be opened; the text left over by [parse_dict] is
    dropped. *)
Definition parse_model_config (fs : filesystem) (fuel : nat)
    (model_path : string) : outcome (gmap string ConfigValue) :=
  match fs (path_join model_path "config.pbtxt") with
  | None => Raise OSError
  | Some config_str =>
      '(_, model_config) ← parse_dict fuel config_str ∅;
      Ok model_config
  end.

End parser.


(** ** ModelConfig (model_config.py) *)

(** [int(x)] on a parsed value: a [str] holding a decimal literal
    (blanks around it, an optional sign, single underscores between
    digits) converts; any other [str] is a [ValueError], and a [list] or
    [dict] is a [TypeError].  The blanks that [int] skips are not quite
    those of [str.strip]: the separators 28 to 31 are not among them.  A
    literal of more than [max_str_digits] digits is a [ValueError] as
    well (the default limit of CPython 3.11 and of the later releases of
    3.7 to 3.10; older interpreters convert such a literal). *)
Definition int_isspace (c : ascii) : bool :=
  let n := nat_of_ascii c in
  ((9 <=? n) && (n <=? 13)) || (n =? 32) || (n =? 133) || (n =? 160).

Fixpoint int_lstrip (s : string) : string :=
  match s with
  | EmptyString => EmptyString
  | String c s' => if int_isspace c then int_lstrip s' else s
  end.

Fixpoint int_rstrip (s : string) : string :=
  match s with
  | EmptyString => EmptyString
  | String c s' =>
      match int_rstrip s' with
      | EmptyString => if int_isspace c then EmptyString else PyStr.chr c
      | r => String c r
      end
  end.

Definition int_strip (s : string) : string := int_lstrip (int_rstrip s).

Definition digit_of (c : ascii) : option Z :=
  let n := nat_of_ascii c in
  if (48 <=? n) && (n <=? 57) then Some (Z.of_nat (n - 48)) else None.

Fixpoint int_digits (acc : Z) (s : string) : option Z :=
  match s with
  | EmptyString => Some acc
  | String c s' =>
      match digit_of c with
      | Some d => int_digits (10 * acc + d) s'
      | None =>
          if Ascii.eqb c "_" then
            match s' with
            | String c' s'' =>
                match digit_of c' with
                | Some d => int_digits (10 * acc + d) s''
                | None => None
                end
            | EmptyString => None
            end
          else None
      end
  end.

Definition int_literal (s : string) : option Z :=
  match s with
  | String c s' =>
      match digit_of c with
      | Some d => int_digits d s'
      | None => None
      end
  | EmptyString => None
  end.

Definition max_str_digits : Z := 4300.

Fixpoint count_digits (s : string) : nat :=
  match s with
  | EmptyString => 0
  | String c s' =>
      match digit_of c with
      | Some _ => S (count_digits s')
      | None => count_digits s'
      end
  end.

Definition int_of_str (s : string) : outcome Z :=
  let literal := int_strip s in
  let parsed :=
    match literal with
    | String "-" s' => Z.opp <$> int_literal s'
    | String "+" s' => int_literal s'
    | s' => int_literal s'
    end in
  match parsed with
  | Some n =>
      if (max_str_digits <? Z.of_nat (count_digits literal))%Z
      then Raise ValueError
      else Ok n
  | None => Raise ValueError
  end.

Definition py_int (v : ConfigValue) : outcome Z :=
  match v with
  | Scalar s => int_of_str s
  | ListV _ | Message _ => Raise TypeError
  end.

(** Truth value of a constructor argument (an empty container and an
    empty [str] are false, as is [None]). *)
Definition truthy (v : ConfigValue) : bool :=
  match v with
  | Scalar s => negb (String.eqb s EmptyString)
  | ListV l => negb (bool_decide (l = []))
  | Message m => negb (bool_decide (size m = 0))
  end.

Module ModelConfig.

Record t : Type := {
  _model_path : string;
  _config : gmap string ConfigValue
}.

Definition name (self : t) : outcome ConfigValue :=
  match _config self !! "name" with
  | None =>
      Raise (TritonModelAnalyzerException
        ("Model's name not found in ModelConfig at " +:+ _model_path self))
  | Some v => Ok v
  end.

Definition platform (self : t) : outcome ConfigValue :=
  match _config self !! "platform" with
  | None =>
      Raise (TritonModelAnalyzerException
        ("Model's platform not found in " +:+
         "ModelConfig at " +:+ _model_path self))
  | Some v => Ok v
  end.

Definition max_batch_size (self : t) : outcome Z :=
  match _config self !! "max_batch_size" with
  | None =>
      Raise (TritonModelAnalyzerException
        ("Model's max_batch_size not found in " +:+
         "ModelConfig at " +:+ _model_path self))
  | Some v => py_int v
  end.

Definition instance_group (self : t) : outcome ConfigValue :=
  match _config self !! "instance_group" with
  | None =>
      Raise (TritonModelAnalyzerException
        ("ModelConfig  at " +:+ _model_path self +:+ " does " +:+
         "not contain an instance_group"))
  | Some v => Ok v
  end.

Definition dynamic_batching (self : t) : outcome ConfigValue :=
  match _config self !! "dynamic_batching" with
  | None =>
      Raise (TritonModelAnalyzerException
        ("ModelConfig at " +:+ _model_path self +:+ " " +:+
         "does not request dynamic_batching"))
  | Some v => Ok v
  end.

(** [self._config['instance_group'] = instance_group] *)
Definition set_instance_group (self : t) (instance_group : ConfigValue) : t :=
  {| _model_path := _model_path self;
     _config := <["instance_group" := instance_group]> (_config self) |}.

(** [self._config['dynamic_batching'] = dynamic_batching] *)
Definition set_dynamic_batching (self : t) (dynamic_batching : ConfigValue) : t :=
  {| _model_path := _model_path self;
     _config := <["dynamic_batching" := dynamic_batching]> (_config self) |}.

Definition __init__ (fs : filesystem) (fuel : nat) (model_path : string)
    (instance_group dynamic_batching : option ConfigValue) : outcome t :=
  config ← parse_model_config fs fuel model_path;
  let self := {| _model_path := model_path; _config := config |} in
  let self :=
    match instance_group with
    | Some v => if truthy v then set_instance_group self v else self
    | None => self
    end in
  let self :=
    match dynamic_batching with
    | Some v => if truthy v then set_dynamic_batching self v else self
    | None => self
    end in
  Ok self.

End ModelConfig.

(** ** Measurements and metric kinds *)

(** A record type (metric kind): hashable, printable, and able to label
    a table column. *)
Class RecordType (K : Type) `{Countable K} := {
  header : K → string → string;
  str_of_kind : K → string
}.

Definition gpu_id : Type := string.

(** One row of metric values. *)
Definition row : Type := list Q.

(** One GPU-specific measurement: a [dict] from GPU id to row, in
    insertion order. *)
Definition gpu_measurement : Type := list (gpu_id * row).

(** The view returned by [dict.values()]: it has a length and can be
    iterated, but it cannot be subscripted. *)
Record dict_values : Type := DictValues { view_items : list row }.

Definition values (measurement : gpu_measurement) : dict_values :=
  DictValues (measurement.*2).

(** What [_average_list] asks of a row: [len(r)] and [r[i]]. *)
Class Subscript (R : Type) := {
  py_len : R → nat;
  py_getitem : R → nat → outcome Q
}.

(** [l[i]] on a Python list, for a non-negative [i]. *)
Definition list_getitem {A : Type} (l : list A) (i : nat) : outcome A :=
  match l !! i with
  | Some x => Ok x
  | None => Raise IndexError
  end.

#[global] Instance row_subscript : Subscript row := {
  py_len := length;
  py_getitem := list_getitem
}.

#[global] Instance dict_values_subscript : Subscript dict_values := {
  py_len v := length (view_items v);
  py_getitem _ _ := Raise TypeError
}.

(** What the comparator asks of a result: [get_measurements()]. *)
Class Measured (R : Type) := {
  get_measurements : R → list gpu_measurement * list row
}.

Definition Qltb (x y : Q) : bool := (Qnum x * QDen y <? Qnum y * QDen x)%Z.

(** [sum(xs)], from the start value 0. *)
Definition py_sum (xs : list Q) : Q := fold_left Qplus xs 0%Q.

(** ** ResultComparator (result_comparator.py) *)

Module ResultComparator.
Section defs.
Context {K : Type} `{RecordType K}.

Record t : Type := {
  _non_gpu_type_to_idx : gmap K nat;
  _gpu_type_to_idx : gmap K nat;
  _metric_priorities : list K;
  _comparison_threshold_factor : Q;
  _weights : option (list Q)
}.

(** [{types[i]: i for i in range(len(types))}]: a later position
    overwrites an earlier one of the same kind. *)
Definition index_types (types : list K) : gmap K nat :=
  foldl (λ m i, match types !! i with
                | Some k => <[k := i]> m
                | None => m
                end) ∅ (seq 0 (length types)).

Definition __init__ (gpu_metric_types non_gpu_metric_types metric_priorities : list K)
    (comparison_threshold_percent : Q) (weights : option (list Q)) : t :=
  {| _non_gpu_type_to_idx := index_types non_gpu_metric_types;
     _gpu_type_to_idx := index_types gpu_metric_types;
     _metric_priorities := metric_priorities;
     _comparison_threshold_factor := (comparison_threshold_percent * 1 / 100)%Q;
     _weights := weights |}.

(** [_average_list(row_list)]: the column-wise mean of a list of rows;
    the empty list is returned as it is. *)
Definition _average_list {R : Type} `{Subscript R} (row_list : list R)
    : outcome (list Q) :=
  match row_list with
  | [] => Ok []
  | row0 :: _ =>
      let N := length row_list in
      let d := py_len row0 in
      mapM (λ i,
        column ← mapM (λ j, r ← list_getitem row_list j; py_getitem r i) (seq 0 N);
        Ok (py_sum column * 1 / inject_Z (Z.of_nat N))%Q) (seq 0 d)
  end.

(** [_average_measurements(result)]: one [dict.values()] view per
    GPU-specific measurement goes into [gpu_rows]. *)
Definition _average_measurements {R : Type} `{Measured R} (result : R)
    : outcome (list Q * list Q) :=
  let '(gpu_measurements, non_gpu_measurements) := get_measurements result in
  let gpu_rows := values <$> gpu_measurements in
  avg_gpu ← _average_list gpu_rows;
  avg_non_gpu ← _average_list non_gpu_measurements;
  Ok (avg_gpu, avg_non_gpu).

(** The threshold test shared by both branches of the priority loop:
    [Some 1], [Some (-1)], or [None] when this priority does not
    decide.  [avg1] and [avg2] are the average rows the branch reads. *)
Definition threshold_test (factor : Q) (avg1 avg2 : list Q) (metric_idx : nat)
    : outcome (option Z) :=
  x ← list_getitem avg1 metric_idx;
  let threshold := (factor * x)%Q in
  x1 ← list_getitem avg1 metric_idx;
  x2 ← list_getitem avg2 metric_idx;
  let value_diff := (x1 - x2)%Q in
  if Qltb threshold value_diff then Ok (Some 1%Z)
  else if Qltb value_diff (- threshold)%Q then Ok (Some (-1)%Z)
  else Ok None.

(** The [for priority in self._metric_priorities] loop of [__call__],
    over the four average rows.  Both tests consult [_gpu_type_to_idx],
    as in the source; the first branch reads the non-GPU averages. *)
Fixpoint priority_loop (self : t) (priorities : list K)
    (avg_gpu_metrics1 avg_non_gpu_metrics1 avg_gpu_metrics2 avg_non_gpu_metrics2 : list Q)
    : outcome Z :=
  match priorities with
  | [] => Ok 0%Z
  | priority :: rest =>
      decided ←
        match _gpu_type_to_idx self !! priority with
        | Some metric_idx =>
            threshold_test (_comparison_threshold_factor self)
              avg_non_gpu_metrics1 avg_non_gpu_metrics2 metric_idx
        | None =>
            match _gpu_type_to_idx self !! priority with
            | Some metric_idx =>
                threshold_test (_comparison_threshold_factor self)
                  avg_gpu_metrics1 avg_gpu_metrics2 metric_idx
            | None =>
                Raise (TritonModelAnalyzerException
                  ("Category unknown for objective : '" +:+
                   str_of_kind priority +:+ "'"))
            end
        end;
      match decided with
      | Some r => Ok r
      | None =>
          priority_loop self rest avg_gpu_metrics1 avg_non_gpu_metrics1
            avg_gpu_metrics2 avg_non_gpu_metrics2
      end
  end.

Definition __call__ {R : Type} `{Measured R} (self : t) (result1 result2 : R)
    : outcome Z :=
  '(avg_gpu_metrics1, avg_non_gpu_metrics1) ← _average_measurements result1;
  '(avg_gpu_metrics2, avg_non_gpu_metrics2) ← _average_measurements result2;
  priority_loop self (_metric_priorities self)
    avg_gpu_metrics1 avg_non_gpu_metrics1 avg_gpu_metrics2 avg_non_gpu_metrics2.

End defs.
End ResultComparator.

(** ** RunResult (run_result.py) *)

(** The run configuration is an outside collaborator; the results use
    its [perf_analyzer_configs()], a list of dictionaries. *)
Inductive cell : Type :=
| CellStr (s : string)
| CellNum (q : Q).

Record RunConfig : Type := {
  perf_analyzer_configs : list (gmap string cell)
}.

Module RunResult.
Section defs.
Context {K : Type} `{RecordType K}.

Record t : Type := {
  _run_config : RunConfig;
  _comparator : ResultComparator.t (K := K);
  _non_gpu_specific_measurements : list row;
  _gpu_specific_measurements : list gpu_measurement
}.

Definition __init__ (run_config : RunConfig) (comparator : ResultComparator.t) : t :=
  {| _run_config := run_config;
     _comparator := comparator;
     _non_gpu_specific_measurements := [];
     _gpu_specific_measurements := [] |}.

(** [add_data(measurements, has_gpu_ids)], one definition per value of
    the flag since the two kinds of measurement differ in type. *)
Definition add_gpu_data (self : t) (measurements : gpu_measurement) : t :=
  {| _run_config := _run_config self;
     _comparator := _comparator self;
     _non_gpu_specific_measurements := _non_gpu_specific_measurements self;
     _gpu_specific_measurements := _gpu_specific_measurements self ++ [measurements] |}.

Definition add_non_gpu_data (self : t) (measurements : row) : t :=
  {| _run_config := _run_config self;
     _comparator := _comparator self;
     _non_gpu_specific_measurements := _non_gpu_specific_measurements self ++ [measurements];
     _gpu_specific_measurements := _gpu_specific_measurements self |}.

Definition measurements_of (self : t) : list gpu_measurement * list row :=
  (_gpu_specific_measurements self, _non_gpu_specific_measurements self).

#[global] Instance measured : Measured t := {
  get_measurements := measurements_of
}.

Definition get_run_config (self : t) : RunConfig := _run_config self.

Definition __eq__ (self other : t) : outcome bool :=
  c ← ResultComparator.__call__ (_comparator self) self other;
  Ok (c =? 0)%Z.

Definition __gt__ (self other : t) : outcome bool :=
  c ← ResultComparator.__call__ (_comparator self) self other;
  Ok (c =? 1)%Z.

(** The default [__ne__] inverts [__eq__]. *)
Definition __ne__ (self other : t) : outcome bool :=
  b ← __eq__ self other;
  Ok (negb b).

(** [functools.total_ordering] fills in [__lt__] from [__gt__]:
    [not (self > other) and self != other]. *)
Definition __lt__ (self other : t) : outcome bool :=
  op_result ← __gt__ self other;
  if negb op_result then __ne__ self other else Ok false.

End defs.
End RunResult.

(** ** The heap queue (Python's [heapq], on which result_manager.py relies) *)

Module heapq.
Section defs.
Context {A : Type}.
Variable lt : A → A → outcome bool.

(** [_siftdown(heap, startpos, pos)] with [newitem = heap[pos]] already
    read: move [newitem] towards the root while it is less than its
    parent.  [pos] is enough fuel. *)
Fixpoint _siftdown_loop (fuel : nat) (heap : list A) (newitem : A)
    (startpos pos : nat) : outcome (list A) :=
  if startpos <? pos then
    match fuel with
    | O => OutOfFuel
    | S fuel =>
        let parentpos := (pos - 1) / 2 in
        parent ← list_getitem heap parentpos;
        b ← lt newitem parent;
        if b : bool then _siftdown_loop fuel (<[pos := parent]> heap) newitem startpos parentpos
        else Ok (<[pos := newitem]> heap)
    end
  else Ok (<[pos := newitem]> heap).

Definition _siftdown (heap : list A) (startpos pos : nat) : outcome (list A) :=
  newitem ← list_getitem heap pos;
  _siftdown_loop pos heap newitem startpos pos.

(** The loop of [_siftup]: bubble the smaller child up until a leaf is
    reached; returns the heap and the position of the hole. *)
Fixpoint _siftup_loop (fuel : nat) (heap : list A) (endpos pos childpos : nat)
    : outcome (list A * nat) :=
  if childpos <? endpos then
    match fuel with
    | O => OutOfFuel
    | S fuel =>
        let rightpos := childpos + 1 in
        right_is_smaller ←
          (if rightpos <? endpos then
             l ← list_getitem heap childpos;
             r ← list_getitem heap rightpos;
             b ← lt l r;
             Ok (negb b)
           else Ok false);
        let childpos := if right_is_smaller : bool then rightpos else childpos in
        child ← list_getitem heap childpos;
        _siftup_loop fuel (<[pos := child]> heap) endpos childpos (2 * childpos + 1)
    end
  else Ok (heap, pos).

Definition _siftup (heap : list A) (pos : nat) : outcome (list A) :=
  let endpos := length heap in
  let startpos := pos in
  newitem ← list_getitem heap pos;
  '(heap, pos) ← _siftup_loop endpos heap endpos pos (2 * pos + 1);
  _siftdown (<[pos := newitem]> heap) startpos pos.

Definition heappush (heap : list A) (item : A) : outcome (list A) :=
  let heap := heap ++ [item] in
  _siftdown heap 0 (length heap - 1).

(** [heappop(heap)]: the smallest item and the remaining heap. *)
Definition heappop (heap : list A) : outcome (A * list A) :=
  match last heap with
  | None => Raise IndexError
  | Some lastelt =>
      let heap := removelast heap in
      match heap with
      | [] => Ok (lastelt, heap)
      | returnitem :: _ =>
          heap ← _siftup (<[0 := lastelt]> heap) 0;
          Ok (returnitem, heap)
      end
  end.

End defs.
End heapq.

(** ** ResultTable *)

Module ResultTable.

(** Modelled from the spec: result_table.py is not among the sources.
    The spec has the tables append-only within a sweep, with a fixed
    identity-column prefix followed by one column per metric kind; a
    table is its title, its headers and its rows in insertion order. *)
Record t : Type := {
  title : string;
  headers : list string;
  rows : list (list cell)
}.

Definition __init__ (headers : list string) (title : string) : t :=
  {| title := title; headers := headers; rows := [] |}.

(** Modelled from the spec: [insert_row_by_index(row)] without an index
    appends the row. *)
Definition insert_row_by_index (self : t) (row : list cell) : t :=
  {| title := title self; headers := headers self; rows := rows self ++ [row] |}.

End ResultTable.

(** ** ResultManager (result_manager.py) *)

Module ResultManager.
Section defs.
Context {K : Type} `{RecordType K}.

Local Abbreviation run_result := (RunResult.t (K := K)).
Local Abbreviation comparator_t := (ResultComparator.t (K := K)).

Definition non_gpu_specific_headers : list string := ["Model"; "Batch"; "Concurrency"].
Definition gpu_specific_headers : list string := ["Model"; "GPU ID"; "Batch"; "Concurrency"].
Definition server_only_table_key : string := "server_gpu_metrics".
Definition model_gpu_table_key : string := "model_gpu_metrics".
Definition model_inference_table_key : string := "model_inference_metrics".

(** The manager and the RunResult objects it has created.  A RunResult
    is shared between [_current_run_result] and the heap [_results], so
    both hold references (positions in [objects]), and [add_model_data]
    updates the object in place. *)
Record t : Type := {
  _result_tables : gmap string ResultTable.t;
  _current_run_result : option nat;
  _result_comparator : option comparator_t;
  _results : list nat;
  objects : list run_result
}.

Definition __init__ : t :=
  {| _result_tables := ∅;
     _current_run_result := None;
     _result_comparator := None;
     _results := [];
     objects := [] |}.

Definition with_tables (self : t) (tables : gmap string ResultTable.t) : t :=
  {| _result_tables := tables;
     _current_run_result := _current_run_result self;
     _result_comparator := _result_comparator self;
     _results := _results self;
     objects := objects self |}.

Definition with_results (self : t) (results : list nat) : t :=
  {| _result_tables := _result_tables self;
     _current_run_result := _current_run_result self;
     _result_comparator := _result_comparator self;
     _results := results;
     objects := objects self |}.

(** The object behind a reference. *)
Definition deref (self : t) (ref : nat) : outcome run_result :=
  list_getitem (objects self) ref.

(** In-place update of the object behind a reference. *)
Definition update (self : t) (ref : nat) (r : run_result) : t :=
  {| _result_tables := _result_tables self;
     _current_run_result := _current_run_result self;
     _result_comparator := _result_comparator self;
     _results := _results self;
     objects := <[ref := r]> (objects self) |}.

Definition set_result_comparator (self : t) (comparator : comparator_t) : t :=
  {| _result_tables := _result_tables self;
     _current_run_result := _current_run_result self;
     _result_comparator := Some comparator;
     _results := _results self;
     objects := objects self |}.

Definition _add_result_table (self : t) (table_key title : string)
    (headers : list string) (metric_types : list K) (aggregation_tag : string) : t :=
  let table_headers :=
    headers ++ ((λ metric, header metric (aggregation_tag +:+ " ")) <$> metric_types) in
  with_tables self
    (<[table_key := ResultTable.__init__ table_headers title]> (_result_tables self)).

Definition create_tables (self : t)
    (gpu_specific_metrics non_gpu_specific_metrics : list K)
    (aggregation_tag : string) : t :=
  let self := _add_result_table self server_only_table_key "Server Only"
                gpu_specific_headers gpu_specific_metrics aggregation_tag in
  let self := _add_result_table self model_gpu_table_key "Models (GPU Metrics)"
                gpu_specific_headers gpu_specific_metrics aggregation_tag in
  _add_result_table self model_inference_table_key "Models (Inference)"
    non_gpu_specific_headers non_gpu_specific_metrics aggregation_tag.

(** [init_result(run_config)]: a new RunResult object becomes the
    current one. *)
Definition init_result (self : t) (run_config : RunConfig) : outcome t :=
  if bool_decide (size (_result_tables self) = 0) then
    Raise (TritonModelAnalyzerException "Cannot initialize results without tables")
  else
    match _result_comparator self with
    | None =>
        Raise (TritonModelAnalyzerException
          "Cannot initialize results without setting result comparator")
    | Some comparator =>
        Ok {| _result_tables := _result_tables self;
              _current_run_result := Some (length (objects self));
              _result_comparator := _result_comparator self;
              _results := _results self;
              objects := objects self ++ [RunResult.__init__ run_config comparator] |}
    end.

(** [self._result_tables[key]] *)
Definition table_getitem (self : t) (key : string) : outcome ResultTable.t :=
  match _result_tables self !! key with
  | Some table => Ok table
  | None => Raise (KeyError key)
  end.

(** [self._result_tables[key].insert_row_by_index(row)] *)
Definition insert_row (self : t) (key : string) (row : list cell) : outcome t :=
  table ← table_getitem self key;
  Ok (with_tables self
        (<[key := ResultTable.insert_row_by_index table row]> (_result_tables self))).

(** A [for] loop whose body may raise, threading the manager.  (An
    exception ends the run: the tables as they were when it was raised
    are not kept.) *)
Fixpoint for_each {X : Type} (body : t → X → outcome t) (self : t) (xs : list X)
    : outcome t :=
  match xs with
  | [] => Ok self
  | x :: xs' => self ← body self x; for_each body self xs'
  end.

Definition add_server_data (self : t) (measurements : gpu_measurement)
    (default_value : cell) : outcome t :=
  for_each (λ self '(gpu_id, metrics),
      let data_row :=
        [CellStr "triton-server"; CellStr gpu_id; default_value; default_value]
        ++ (CellNum <$> metrics) in
      insert_row self server_only_table_key data_row)
    self measurements.

(** [self._current_run_result], an attribute that [init_result] alone
    creates. *)
Definition current_run_result (self : t) : outcome nat :=
  match _current_run_result self with
  | Some ref => Ok ref
  | None => Raise AttributeError
  end.

(** [add_model_data(measurements, has_gpu_ids)], one definition per
    value of the flag. *)
Definition add_model_gpu_data (self : t) (measurements : gpu_measurement) : outcome t :=
  ref ← current_run_result self;
  r ← deref self ref;
  Ok (update self ref (RunResult.add_gpu_data r measurements)).

Definition add_model_non_gpu_data (self : t) (measurements : row) : outcome t :=
  ref ← current_run_result self;
  r ← deref self ref;
  Ok (update self ref (RunResult.add_non_gpu_data r measurements)).

(** [a < b] on two references. *)
Definition ref_lt (self : t) (a b : nat) : outcome bool :=
  x ← deref self a;
  y ← deref self b;
  RunResult.__lt__ x y.

Definition complete_result (self : t) : outcome t :=
  ref ← current_run_result self;
  results ← heapq.heappush (ref_lt self) (_results self) ref;
  Ok (with_results self results).

(** [d[key]] on a perf-analyzer configuration. *)
Definition config_getitem (d : gmap string cell) (key : string) : outcome cell :=
  match d !! key with
  | Some v => Ok v
  | None => Raise (KeyError key)
  end.

Definition _compile_result (self : t) (result : run_result) : outcome t :=
  let '(gpu_data, non_gpu_rows) := get_measurements result in
  let perf_configs := perf_analyzer_configs (RunResult.get_run_config result) in
  for_each (λ self i,
      perf_config ← list_getitem perf_configs i;
      model_name ← config_getitem perf_config "model-name";
      batch_size ← config_getitem perf_config "batch-size";
      concurrency ← config_getitem perf_config "concurrency-range";
      non_gpu_row ← list_getitem non_gpu_rows i;
      let inference_metrics :=
        [model_name; batch_size; concurrency] ++ (CellNum <$> non_gpu_row) in
      self ← insert_row self model_inference_table_key inference_metrics;
      gpu_datum ← list_getitem gpu_data i;
      for_each (λ self '(gpu_id, metrics),
          let gpu_metrics :=
            [model_name; CellStr gpu_id; batch_size; concurrency]
            ++ (CellNum <$> metrics) in
          insert_row self model_gpu_table_key gpu_metrics)
        self gpu_datum)
    self (seq 0 (length perf_configs)).

(** [compile_results()]: pop until the heap is empty.  Every pop
    shortens the heap by one, so its length is enough fuel.  The second
    component lists the popped results, in the order in which they were
    compiled. *)
Fixpoint compile_loop (fuel : nat) (self : t) (compiled : list run_result)
    : outcome (t * list run_result) :=
  match _results self with
  | [] => Ok (self, compiled)
  | _ :: _ =>
      match fuel with
      | O => OutOfFuel
      | S fuel =>
          '(ref, results) ← heapq.heappop (ref_lt self) (_results self);
          next_best_result ← deref self ref;
          self ← _compile_result (with_results self results) next_best_result;
          compile_loop fuel self (compiled ++ [next_best_result])
      end
  end.

Definition compile_results (self : t) : outcome t :=
  '(self, _) ← compile_loop (length (_results self)) self [];
  Ok self.

Definition get_all_tables (self : t) : gmap string ResultTable.t := _result_tables self.

Definition _get_table (self : t) (key : string) : outcome ResultTable.t :=
  match _result_tables self !! key with
  | None =>
      Raise (TritonModelAnalyzerException
        ("Table with key '" +:+ key +:+ "' not found in ResultManager"))
  | Some table => Ok table
  end.

Definition get_server_table (self : t) : outcome ResultTable.t :=
  _get_table self server_only_table_key.

Definition get_model_tables (self : t) : outcome (ResultTable.t * ResultTable.t) :=
  gpu_table ← _get_table self model_gpu_table_key;
  inference_table ← _get_table self model_inference_table_key;
  Ok (gpu_table, inference_table).

End defs.
End ResultManager.

(** ** Notions used to state properties *)

(** The values [row_list[j][i]] of the rows that have a column [i]. *)
Definition column (i : nat) (rows : list row) : list Q :=
  omap (λ r : list Q, r !! i) rows.

(** The mean that [_average_list] computes for column [i]. *)
Definition column_mean (rows : list row) (i : nat) : Q :=
  (py_sum (column i rows) * 1 / inject_Z (Z.of_nat (length rows)))%Q.

(** [str(n)] for a natural number [n]: its decimal notation. *)
Definition str_of_nat (n : nat) : string :=
  NilZero.string_of_uint (Nat.to_uint n).

Section table_notions.
Context {K : Type} `{RecordType K}.

(** The rows of a table of the manager (none if there is no such
    table). *)
Definition table_rows (self : ResultManager.t (K := K)) (key : string)
    : list (list cell) :=
  match ResultManager._result_tables self !! key with
  | Some table => ResultTable.rows table
  | None => []
  end.

(** How many rows a result contributes to the inference table and to
    the GPU table: one per perf-analyzer configuration, and one per GPU
    of the measurement that goes with each configuration. *)
Definition configs_of (r : RunResult.t (K := K)) : nat :=
  length (perf_analyzer_configs (RunResult.get_run_config r)).

Definition gpu_rows_of (r : RunResult.t (K := K)) : nat :=
  sum_list_with length (take (configs_of r) (RunResult._gpu_specific_measurements r)).

(** The same, summed over the results in the queue. *)
Definition queued (count : RunResult.t (K := K) → nat)
    (self : ResultManager.t (K := K)) : nat :=
  sum_list_with (λ ref, from_option count 0 (ResultManager.objects self !! ref))
    (ResultManager._results self).

(** The tables of [self'] are those of [self] with [a] rows appended to
    the inference table and [b] rows appended to the GPU table. *)
Definition tables_grow (self self' : ResultManager.t (K := K)) (a b : nat) : Prop :=
  (∃ new, table_rows self' ResultManager.model_inference_table_key
          = table_rows self ResultManager.model_inference_table_key ++ new
          ∧ length new = a)
  ∧ (∃ new, table_rows self' ResultManager.model_gpu_table_key
            = table_rows self ResultManager.model_gpu_table_key ++ new
            ∧ length new = b)
  ∧ ∀ key, key ≠ ResultManager.model_inference_table_key →
           key ≠ ResultManager.model_gpu_table_key →
           ResultManager._result_tables self' !! key
           = ResultManager._result_tables self !! key.

(** Everything but the tables is the same in [self'] as in [self]. *)
Definition same_results (self self' : ResultManager.t (K := K)) : Prop :=
  ResultManager._results self' = ResultManager._results self
  ∧ ResultManager.objects self' = ResultManager.objects self
  ∧ ResultManager._current_run_result self' = ResultManager._current_run_result self
  ∧ ResultManager._result_comparator self' = ResultManager._result_comparator self.

End table_notions.

(** ** Concrete record types and scenarios *)

(** Record types named by strings, for the scenarios below. *)
#[global] Instance string_record_type : RecordType string := {
  header k prefix := prefix +:+ k;
  str_of_kind k := k
}.

Module Scenario.

Abbreviation comparator := (ResultComparator.t (K := string)).
Abbreviation run_result := (RunResult.t (K := string)).
Abbreviation manager := (ResultManager.t (K := string)).

Definition gpu_kind : string := "gpu_used_memory".
Definition host_kind : string := "perf_throughput".

(** A comparator whose only priority is the GPU-scoped kind. *)
Definition by_gpu_kind : comparator :=
  ResultComparator.__init__ [gpu_kind] [host_kind] [gpu_kind] 1 None.

(** A comparator whose only priority is the host-scoped kind. *)
Definition by_host_kind : comparator :=
  ResultComparator.__init__ [gpu_kind] [host_kind] [host_kind] 1 None.

Definition one_config : RunConfig :=
  {| perf_analyzer_configs :=
       [ <["model-name" := CellStr "m"]>
           (<["batch-size" := CellNum 1]>
              (<["concurrency-range" := CellNum 1]> ∅)) ] |}.

(** A result with the given GPU-specific and non-GPU-specific
    measurements, added in order. *)
Definition result_of (c : comparator)
    (gpu : list gpu_measurement) (non_gpu : list row) : run_result :=
  let r := RunResult.__init__ one_config c in
  let r := foldl RunResult.add_gpu_data r gpu in
  foldl RunResult.add_non_gpu_data r non_gpu.

(** A comparator without priorities. *)
Definition no_priorities : comparator :=
  ResultComparator.__init__ [gpu_kind] [host_kind] [] 1 None.

(** A comparator that lists the same kind in both universes. *)
Definition by_shared_kind : comparator :=
  ResultComparator.__init__ [host_kind] [host_kind] [host_kind] 1 None.

(** Two results measured on one GPU: GPU metric 20 against 10, host
    metric 10 for both. *)
Definition gpu_a : run_result := result_of by_gpu_kind [[("GPU-0", [20%Q])]] [[10%Q]].
Definition gpu_b : run_result := result_of by_gpu_kind [[("GPU-0", [10%Q])]] [[10%Q]].

(** Two results with host metric 10 against 5 and no GPU measurements. *)
Definition host_a : run_result := result_of by_host_kind [] [[10%Q]].
Definition host_b : run_result := result_of by_host_kind [] [[5%Q]].

(** Host metrics that differ by exactly one percent of the first. *)
Definition boundary_a : run_result := result_of by_host_kind [] [[100%Q]].
Definition boundary_b : run_result := result_of by_host_kind [] [[99%Q]].

(** A result whose first GPU-specific measurement holds no GPU and
    whose second one holds a GPU. *)
Definition late_gpu : run_result :=
  result_of by_gpu_kind [[]; [("GPU-0", [5%Q])]] [[3%Q]].

(** A result to which no data has been added. *)
Definition no_data : run_result := RunResult.__init__ one_config by_gpu_kind.

(** A sweep: tables and comparator first, then one result per host
    metric value (each with one host row and one measurement of a
    machine without GPUs), then [compile_results]; the outcome is the
    rows of the inference table. *)
Definition ready (c : comparator) : manager :=
  ResultManager.set_result_comparator
    (ResultManager.create_tables ResultManager.__init__ [gpu_kind] [host_kind] "Max") c.

Definition submit (m : manager) (v : Q) : outcome manager :=
  m ← ResultManager.init_result m one_config;
  m ← ResultManager.add_model_non_gpu_data m [v];
  m ← ResultManager.add_model_gpu_data m [];
  ResultManager.complete_result m.

Fixpoint submit_all (m : manager) (vs : list Q) : outcome manager :=
  match vs with
  | [] => Ok m
  | v :: vs' => m ← submit m v; submit_all m vs'
  end.

Definition ranking_rows (c : comparator) (vs : list Q) : outcome (list (list cell)) :=
  m ← submit_all (ready c) vs;
  m ← ResultManager.compile_results m;
  '(_, inference_table) ← ResultManager.get_model_tables m;
  Ok (ResultTable.rows inference_table).

Definition inference_row (v : Q) : list cell :=
  [CellStr "m"; CellNum 1; CellNum 1; CellNum v].

(** A result measured on two GPUs, and a manager in which it is the
    current result, with the tables made and nothing queued yet. *)
Definition one_result : run_result :=
  result_of by_gpu_kind [[("GPU-0", [1%Q]); ("GPU-1", [2%Q])]] [[10%Q]].

Definition accumulating : manager :=
  {| ResultManager._result_tables := ResultManager._result_tables (ready by_gpu_kind);
     ResultManager._current_run_result := Some 0;
     ResultManager._result_comparator := Some by_gpu_kind;
     ResultManager._results := [];
     ResultManager.objects := [one_result] |}.

(** The configuration text of the parsing scenario. *)
Definition config_text : string :=
  "name: " +:+ PyStr.chr PyStr.dquote +:+ "m1" +:+ PyStr.chr PyStr.dquote +:+ PyStr.chr PyStr.nl +:+
  "platform: " +:+ PyStr.chr PyStr.dquote +:+ "tensorrt" +:+ PyStr.chr PyStr.dquote +:+ PyStr.chr PyStr.nl +:+
  "max_batch_size: 8" +:+ PyStr.chr PyStr.nl +:+
  "instance_group [" +:+ PyStr.chr PyStr.nl +:+
  "{" +:+ PyStr.chr PyStr.nl +:+
  "count: 2" +:+ PyStr.chr PyStr.nl +:+
  "}" +:+ PyStr.chr PyStr.nl +:+
  "]" +:+ PyStr.chr PyStr.nl.

Definition config_message : gmap string ConfigValue :=
  <["name" := Scalar "m1"]>
    (<["platform" := Scalar "tensorrt"]>
       (<["max_batch_size" := Scalar "8"]>
          (<["instance_group" := ListV [Message (<["count" := Scalar "2"]> ∅)]]> ∅))).

(** A file system holding one configuration file, whatever the path. *)
Definition fs_with (text : string) : filesystem := λ _, Some text.

(** Texts that end while a list or a dict is still open. *)
Definition open_list_blank : string := "a [" +:+ PyStr.chr PyStr.nl.
Definition open_list_item : string := "a [x" +:+ PyStr.chr PyStr.nl.
Definition open_dict : string :=
  "a {" +:+ PyStr.chr PyStr.nl +:+ "b: 1" +:+ PyStr.chr PyStr.nl.

(** A last line without a line break. *)
Definition unterminated_last_line : string :=
  "a: 1" +:+ PyStr.chr PyStr.nl +:+ "b: 2".

(** Configurations whose [max_batch_size] is there but is no number: a
    word, and a list. *)
Definition word_batch_size : ModelConfig.t :=
  {| ModelConfig._model_path := "/models/m1";
     ModelConfig._config := <["max_batch_size" := Scalar "abc"]> ∅ |}.

Definition list_batch_size : ModelConfig.t :=
  {| ModelConfig._model_path := "/models/m1";
     ModelConfig._config := <["max_batch_size" := ListV [Scalar "8"]]> ∅ |}.

End Scenario.

(** * Properties *)

(** ** Strings *)

Section string_facts.
Import PyStr.

Lemma lstrip_idemp (s : string) : lstrip (lstrip s) = lstrip s.
Proof.
  induction s as [|c s IH]; simpl; [done|].
  destruct (isspace c) eqn:Hc; [done|]. simpl. by rewrite Hc.
Qed.

Lemma index_of_lstrip_None (c : ascii) (s : string) :
  index_of c s = None → index_of c (lstrip s) = None.
Proof.
  induction s as [|a s IH]; simpl; [done|].
  destruct (Ascii.eqb a c) eqn:Hac; [done|].
  destruct (index_of c s) eqn:Hi; [done|]. intros _.
  destruct (isspace a); [by apply IH|]. simpl. by rewrite Hac, Hi.
Qed.

Lemma find_None (c : ascii) (s : string) :
  index_of c s = None → find c s = (-1)%Z.
Proof. unfold find. by intros ->. Qed.

Lemma find_ge (c : ascii) (s : string) : (-1 ≤ find c s)%Z.
Proof. unfold find. destruct (index_of c s); lia. Qed.

Lemma slice_from_0 (s : string) : slice_from s 0 = s.
Proof. unfold slice_from, bound. simpl. by destruct s. Qed.

Lemma startswith_app (sub post : string) : startswith sub (sub +:+ post) = true.
Proof.
  induction sub as [|a sub IH]; [done|].
  change (String a sub +:+ post) with (String a (sub +:+ post)).
  simpl. rewrite Ascii.eqb_refl. exact IH.
Qed.

Lemma contains_startswith (sub s : string) :
  startswith sub s = true → contains sub s = true.
Proof. destruct s; simpl; by intros ->. Qed.

Lemma contains_app_r (sub pre s : string) :
  contains sub s = true → contains sub (pre +:+ s) = true.
Proof.
  intros Hs. induction pre as [|c pre IH]; [done|].
  change (String c pre +:+ s) with (String c (pre +:+ s)).
  simpl. rewrite IH. by rewrite orb_true_r.
Qed.

Lemma contains_app (sub pre post : string) :
  contains sub (pre +:+ sub +:+ post) = true.
Proof.
  induction pre as [|c pre IH].
  - change (EmptyString +:+ sub +:+ post) with (sub +:+ post).
    apply contains_startswith, startswith_app.
  - change (String c pre +:+ sub +:+ post) with (String c (pre +:+ sub +:+ post)).
    simpl. rewrite IH. by rewrite orb_true_r.
Qed.

End string_facts.

(** ** Strings: lengths, searches and slices of concatenations *)

Section string_app_facts.
Import PyStr.

Lemma app_String (c : ascii) (s t : string) :
  String c s +:+ t = String c (s +:+ t).
Proof. reflexivity. Qed.

Lemma app_empty_l (t : string) : EmptyString +:+ t = t.
Proof. reflexivity. Qed.

Lemma len_app (s t : string) : len (s +:+ t) = len s + len t.
Proof.
  induction s as [|c s IH]; [done|]. rewrite app_String. simpl. by rewrite IH.
Qed.

Lemma len_lstrip (s : string) : len (lstrip s) ≤ len s.
Proof.
  induction s as [|c s IH]; simpl; [done|]. destruct (isspace c); simpl; lia.
Qed.

Lemma len_drop (n : nat) (s : string) : len (drop n s) = len s - n.
Proof. revert s. induction n as [|n IH]; intros [|c s]; simpl; auto. Qed.

Lemma take_app (s t : string) : take (len s) (s +:+ t) = s.
Proof.
  induction s as [|c s IH]; [by destruct t|].
  rewrite app_String. simpl. by rewrite IH.
Qed.

Lemma drop_app (s t : string) : drop (len s) (s +:+ t) = t.
Proof. induction s as [|c s IH]; [done|]. rewrite app_String. by simpl. Qed.

Lemma drop_S_app (s : string) (c : ascii) (t : string) :
  drop (S (len s)) (s +:+ String c t) = t.
Proof. induction s as [|a s IH]; [done|]. rewrite app_String. by simpl. Qed.

Lemma index_of_app (c : ascii) (s t : string) :
  index_of c s = None →
  index_of c (s +:+ t) = (λ i, len s + i) <$> index_of c t.
Proof.
  intros Hs. induction s as [|a s IH].
  - rewrite app_empty_l. by destruct (index_of c t).
  - rewrite app_String. simpl in *. destruct (Ascii.eqb a c); [done|].
    destruct (index_of c s) eqn:Hi; [done|]. rewrite IH by done.
    by destruct (index_of c t).
Qed.

Lemma index_of_app_hit (c : ascii) (s t : string) :
  index_of c s = None → index_of c (s +:+ String c t) = Some (len s).
Proof.
  intros Hs. rewrite index_of_app by done. simpl. rewrite Ascii.eqb_refl.
  simpl. f_equal. lia.
Qed.

Lemma index_of_app_None (c : ascii) (s t : string) :
  index_of c s = None → index_of c t = None → index_of c (s +:+ t) = None.
Proof. intros Hs Ht. rewrite index_of_app by done. by rewrite Ht. Qed.

Lemma index_of_app_inv (c : ascii) (s t : string) :
  index_of c (s +:+ t) = None → index_of c s = None ∧ index_of c t = None.
Proof.
  induction s as [|a s IH]; [done|]. rewrite app_String. simpl.
  destruct (Ascii.eqb a c); [done|].
  destruct (index_of c (s +:+ t)) eqn:Hi; [done|]. intros _.
  destruct (IH eq_refl) as [-> ->]. done.
Qed.

Lemma index_of_lt (c : ascii) (s : string) (i : nat) :
  index_of c s = Some i → i < len s.
Proof.
  revert i. induction s as [|a s IH]; intros i; simpl; [done|].
  destruct (Ascii.eqb a c); [intros [= <-]; lia|].
  destruct (index_of c s) as [j|]; [|done]. intros [= <-].
  specialize (IH j eq_refl). lia.
Qed.

Lemma index_of_take (c : ascii) (n : nat) (s : string) :
  index_of c s = None → index_of c (take n s) = None.
Proof.
  revert s. induction n as [|n IH]; intros [|a s]; simpl; try done.
  destruct (Ascii.eqb a c); [done|].
  destruct (index_of c s) eqn:Hi; [done|]. intros _. by rewrite IH.
Qed.

Lemma find_app_hit (c : ascii) (s t : string) :
  index_of c s = None → find c (s +:+ String c t) = Z.of_nat (len s).
Proof. intros Hs. unfold find. by rewrite index_of_app_hit. Qed.

Lemma bound_of_nat (s : string) (n : nat) : bound s (Z.of_nat n) = n.
Proof.
  unfold bound. destruct (Z.ltb_spec (Z.of_nat n) 0); [lia|]. apply Nat2Z.id.
Qed.

Lemma bound_of_nat_succ (s : string) (n : nat) : bound s (Z.of_nat n + 1) = S n.
Proof.
  replace (Z.of_nat n + 1)%Z with (Z.of_nat (S n)) by lia. apply bound_of_nat.
Qed.

Lemma slice_to_app (s t : string) : slice_to (s +:+ t) (Z.of_nat (len s)) = s.
Proof. unfold slice_to. rewrite bound_of_nat. apply take_app. Qed.

Lemma slice_from_app (s : string) (c : ascii) (t : string) :
  slice_from (s +:+ String c t) (Z.of_nat (len s) + 1) = t.
Proof. unfold slice_from. rewrite bound_of_nat_succ. apply drop_S_app. Qed.

(** A text whose first character is not a blank is left alone by
    [lstrip]. *)
Lemma lstrip_app (s t : string) :
  s ≠ EmptyString → lstrip s = s → lstrip (s +:+ t) = s +:+ t.
Proof.
  destruct s as [|c s]; [done|]. intros _. rewrite app_String. simpl.
  destruct (isspace c) eqn:Hc; [|done].
  intros Hl. pose proof (len_lstrip s) as Hlen. rewrite Hl in Hlen. simpl in Hlen. lia.
Qed.

Lemma lstrip_String (c : ascii) (t : string) :
  isspace c = false → lstrip (String c t) = String c t.
Proof. intros Hc. simpl. by rewrite Hc. Qed.

Lemma app_assoc_str (s t u : string) : (s +:+ t) +:+ u = s +:+ (t +:+ u).
Proof.
  induction s as [|c s IH]; [done|]. rewrite !app_String. by rewrite IH.
Qed.

Lemma index_of_app_Some (c : ascii) (s t : string) (i : nat) :
  index_of c s = Some i → index_of c (s +:+ t) = Some i.
Proof.
  revert i. induction s as [|a s IH]; intros i; [done|].
  rewrite app_String. simpl. destruct (Ascii.eqb a c); [done|].
  destruct (index_of c s) as [j|]; [|done]. intros [= <-]. by rewrite (IH j).
Qed.

Lemma take_app_le (n : nat) (s t : string) :
  n ≤ len s → take n (s +:+ t) = take n s.
Proof.
  revert s. induction n as [|n IH]; intros [|c s] Hn; simpl in *; try done; [lia|].
  rewrite IH; [done|lia].
Qed.

Lemma drop_app_le (n : nat) (s t : string) :
  n ≤ len s → drop n (s +:+ t) = drop n s +:+ t.
Proof.
  revert s. induction n as [|n IH]; intros [|c s] Hn; simpl in *; try done; [lia|].
  apply IH. lia.
Qed.

(** Leading blanks of a concatenation. *)
Lemma lstrip_app_blank (s t : string) :
  lstrip s = EmptyString → lstrip (s +:+ t) = lstrip t.
Proof.
  induction s as [|c s IH]; [done|]. rewrite app_String. simpl.
  destruct (isspace c); [exact IH|done].
Qed.

Lemma lstrip_app_keep (s t : string) :
  lstrip s ≠ EmptyString → lstrip (s +:+ t) = lstrip s +:+ t.
Proof.
  induction s as [|c s IH]; [done|]. rewrite app_String. simpl.
  destruct (isspace c); [exact IH|done].
Qed.

Lemma len_take (n : nat) (s : string) : len (take n s) = n `min` len s.
Proof. revert s. induction n as [|n IH]; intros [|c s]; simpl; auto. Qed.

End string_app_facts.

(** ** The parser *)

Section parser_facts.
Import PyStr.

Lemma bind_finished {A B : Type} (x x' : outcome A) (k k' : A → outcome B) :
  (x ≠ OutOfFuel → x' = x) →
  (∀ a, k a ≠ OutOfFuel → k' a = k a) →
  x ≫= k ≠ OutOfFuel → x' ≫= k' = x ≫= k.
Proof.
  intros Hx Hk Hfin. destruct x as [a|e|]; [| |done].
  - rewrite Hx by done. simpl in *. by apply Hk.
  - by rewrite Hx.
Qed.

(** More fuel does not change the outcome of a parse that has finished. *)
Lemma parse_fuel_mono (n : nat) :
  (∀ m s o, n ≤ m → parse_dict n s o ≠ OutOfFuel →
            parse_dict m s o = parse_dict n s o) ∧
  (∀ m s o, n ≤ m → parse_list n s o ≠ OutOfFuel →
            parse_list m s o = parse_list n s o).
Proof.
  induction n as [|n [IHd IHl]]; split; intros m s o Hle Hfin; try done.
  - destruct m as [|m]; [lia|]. assert (n ≤ m) as Hnm by lia.
    simpl in *.
    repeat case_match; try done.
    + by apply IHd.
    + apply bind_finished; [by apply IHl| |done].
      intros [rest l] ?. by apply IHd.
    + apply bind_finished; [by apply IHd| |done].
      intros [rest l] ?. by apply IHd.
  - destruct m as [|m]; [lia|]. assert (n ≤ m) as Hnm by lia.
    simpl in *.
    repeat case_match; try done.
    + apply bind_finished; [by apply IHd| |done].
      intros [rest l] ?. by apply IHl.
    + by apply IHl.
    + by apply IHl.
Qed.

Lemma parse_dict_fuel_mono (n m : nat) (s : string) (o : gmap string ConfigValue) r :
  parse_dict n s o = Ok r → n ≤ m → parse_dict m s o = Ok r.
Proof.
  intros Hr Hle. rewrite <- Hr. apply (parse_fuel_mono n); [done|]. by rewrite Hr.
Qed.

End parser_facts.

Section unclosed_contexts.
Import PyStr.

Lemma no_close_lstrip (s : string) : no_close s → no_close (lstrip s).
Proof. apply index_of_lstrip_None. Qed.

Lemma index_of_drop_None (c : ascii) (n : nat) (s : string) :
  index_of c s = None → index_of c (drop n s) = None.
Proof.
  revert s. induction n as [|n IH]; intros [|a s]; simpl; try done.
  destruct (Ascii.eqb a c); [done|].
  destruct (index_of c s) eqn:Hi; [done|]. intros _. by apply IH.
Qed.

Lemma no_close_slice_from (s : string) (k : Z) : no_close s → no_close (slice_from s k).
Proof. apply index_of_drop_None. Qed.

Lemma no_close_head (c : ascii) (r : string) :
  no_close (String c r) → Ascii.eqb c "]" = false.
Proof. unfold no_close. simpl. by destruct (Ascii.eqb c "]"). Qed.

Lemma bind_Ok_inv {A B : Type} (x : outcome A) (k : A → outcome B) (b : B) :
  x ≫= k = Ok b → ∃ a, x = Ok a ∧ k a = Ok b.
Proof. destruct x as [a| |]; [|done..]. intros Hk. by exists a. Qed.

Lemma bind_Raise_inv {A B : Type} (x : outcome A) (k : A → outcome B) (e : exn) :
  x ≫= k = Raise e → x = Raise e ∨ ∃ a, x = Ok a ∧ k a = Raise e.
Proof.
  destruct x as [a|e'|]; [| |done].
  - intros Hk. right. by exists a.
  - intros Hk. left. simpl in Hk. congruence.
Qed.

(** Without a closing bracket ahead, the text handed back by the dict
    parser has none either, and the list parser never returns. *)
Lemma parse_no_close (n : nat) :
  (∀ s o rest o', no_close s → parse_dict n s o = Ok (rest, o') → no_close rest) ∧
  (∀ s o r, no_close s → parse_list n s o ≠ Ok r).
Proof.
  induction n as [|n [IHd IHl]]; split; try done.
  - intros s o rest o' Hs. apply no_close_lstrip in Hs. simpl.
    repeat case_match; try by intros [= <- _].
    + apply IHd. by apply no_close_slice_from.
    + intros ([rest1 l] & Hl & _)%bind_Ok_inv.
      by apply IHl in Hl; [|apply no_close_slice_from].
    + intros ([rest1 d] & Hd & Hk)%bind_Ok_inv.
      apply IHd in Hd; [|by apply no_close_slice_from].
      apply IHd in Hk; [done|]. by apply no_close_lstrip.
  - intros s o r Hs. apply no_close_lstrip in Hs. simpl.
    destruct (lstrip s) as [|c0 cs] eqn:Hls; [done|].
    rewrite (no_close_head _ _ Hs).
    destruct (Ascii.eqb c0 "{").
    + intros ([rest1 d] & Hd & Hk)%bind_Ok_inv.
      apply IHd in Hd; [|by apply no_close_slice_from, no_close_lstrip].
      revert Hk. apply IHl. by apply no_close_slice_from, no_close_lstrip.
    + apply IHl. by apply no_close_slice_from.
Qed.

(** With the recursion limit left out, the only exception the parser
    itself can raise is [IndexError]. *)
Lemma parse_raises_IndexError (n : nat) :
  (∀ s o e, parse_dict n s o = Raise e → e = IndexError) ∧
  (∀ s o e, parse_list n s o = Raise e → e = IndexError).
Proof.
  induction n as [|n [IHd IHl]]; split; try done.
  - intros s o e. simpl. repeat case_match; try done.
    + apply IHd.
    + intros [Hl|([rest l] & _ & Hk)]%bind_Raise_inv; [by apply IHl in Hl|by apply IHd in Hk].
    + intros [Hd|([rest d] & _ & Hk)]%bind_Raise_inv; [by apply IHd in Hd|by apply IHd in Hk].
  - intros s o e. simpl. repeat case_match; try done.
    + by intros [= <-].
    + intros [Hd|([rest d] & _ & Hk)]%bind_Raise_inv; [by apply IHd in Hd|by apply IHl in Hk].
    + apply IHl.
    + apply IHl.
Qed.

(** A non-blank list item with no closing bracket ahead is re-read
    forever: the delimiter is -1, and [config_str[delimiter + 1:]] is the
    whole text again. *)
Lemma parse_list_diverges (fuel : nat) (s : string) (out : list ConfigValue)
    (c : ascii) (r : string) :
  lstrip s = String c r → c ≠ "]"%char → c ≠ "{"%char → no_close s →
  parse_list fuel s out = OutOfFuel.
Proof.
  revert s out. induction fuel as [|fuel IH]; intros s out Hls Hc1 Hc2 Hs; [done|].
  simpl. rewrite Hls.
  rewrite (proj2 (Ascii.eqb_neq _ _) Hc1), (proj2 (Ascii.eqb_neq _ _) Hc2).
  apply no_close_lstrip in Hs. rewrite Hls in Hs.
  rewrite (find_None _ _ Hs).
  pose proof (find_ge "," (String c r)) as Hge.
  replace ((find "," (String c r) <? 0)%Z || (find "," (String c r) >? -1)%Z)
    with true by (symmetry; apply orb_true_iff; lia).
  change (-1 + 1)%Z with 0%Z. rewrite slice_from_0.
  apply IH; try done.
  rewrite <- Hls. apply lstrip_idemp.
Qed.

(** A line without colon and opening bracket ends the loop of the dict
    parser. *)
Lemma parse_dict_stop_line (fuel : nat) (line rest : string)
    (output : gmap string ConfigValue) :
  line ≠ EmptyString → lstrip line = line →
  index_of nl line = None → index_of ":" line = None →
  index_of "[" line = None → index_of "{" line = None →
  parse_dict (S fuel) (line +:+ String nl rest) output =
    Ok (line +:+ String nl rest, output).
Proof.
  intros Hne Hls Hnl Hc Hl Hd.
  assert (0 < len line) as Hlen by (destruct line; [done|simpl; lia]).
  cbn [parse_dict]. rewrite (lstrip_app _ _ Hne Hls), (find_app_hit _ _ _ Hnl).
  destruct (Z.leb_spec (Z.of_nat (len line)) 0) as [?|_]; [lia|].
  rewrite slice_to_app.
  by rewrite (find_None _ _ Hc), (find_None _ _ Hl), (find_None _ _ Hd).
Qed.

Lemma find_Some (c : ascii) (s : string) (i : nat) :
  index_of c s = Some i → find c s = Z.of_nat i.
Proof. unfold find. by intros ->. Qed.

Lemma slice_to_app_le (s t : string) (i : nat) :
  i ≤ len s → slice_to (s +:+ t) (Z.of_nat i) = slice_to s (Z.of_nat i).
Proof. intros Hi. unfold slice_to. rewrite !bound_of_nat. by apply take_app_le. Qed.

Lemma slice_from_app_le (s t : string) (i : nat) :
  S i ≤ len s →
  slice_from (s +:+ t) (Z.of_nat i + 1) = slice_from s (Z.of_nat i + 1) +:+ t.
Proof.
  intros Hi. unfold slice_from. rewrite !bound_of_nat_succ. by apply drop_app_le.
Qed.

(** The dict parser starts by dropping the leading blanks. *)
Lemma parse_dict_lstrip (fuel : nat) (s : string) (o : gmap string ConfigValue) :
  parse_dict fuel (lstrip s) o = parse_dict fuel s o.
Proof. destruct fuel; [done|]. cbn [parse_dict]. by rewrite lstrip_idemp. Qed.

(** The text that the dict parser hands back is one on which it stops
    at once: it has no line break left, or its first line has neither a
    colon nor an opening bracket. *)
Lemma parse_dict_hands_back (n : nat) (s : string) (o : gmap string ConfigValue)
    (r : string) (o' : gmap string ConfigValue) :
  parse_dict n s o = Ok (r, o') →
  lstrip r = r ∧ ∀ m o'', parse_dict (S m) r o'' = Ok (r, o'').
Proof.
  revert s o. induction n as [|n IH]; intros s o; [done|].
  cbn [parse_dict]. set (cs := lstrip s).
  assert (lstrip cs = cs) as Hcs by apply lstrip_idemp.
  destruct (find nl cs <=? 0)%Z eqn:Hnl.
  { intros [= <- <-]. split; [done|]. intros m o''.
    cbn [parse_dict]. by rewrite Hcs, Hnl. }
  destruct (find ":" (slice_to cs (find nl cs)) >? -1)%Z eqn:Hk; [apply IH|].
  destruct (find "[" (slice_to cs (find nl cs)) >? -1)%Z eqn:Hl.
  { intros ([rest l] & _ & Hrest)%bind_Ok_inv. by apply IH in Hrest. }
  destruct (find "{" (slice_to cs (find nl cs)) >? -1)%Z eqn:Hd.
  { intros ([rest d] & _ & Hrest)%bind_Ok_inv. by apply IH in Hrest. }
  intros [= <- <-]. split; [done|]. intros m o''.
  cbn [parse_dict]. by rewrite Hcs, Hnl, Hk, Hl, Hd.
Qed.

(** A text without lists whose parse has used up the input, whatever
    the number of dicts still open, gives the same tree when a closing
    brace is added on a line of its own; the brace is handed back. *)
Lemma parse_dict_as_if_closed (n : nat) (s later : string)
    (o : gmap string ConfigValue) (r : string) (o' : gmap string ConfigValue) :
  index_of "[" s = None →
  parse_dict n s o = Ok (r, o') → lstrip r = EmptyString →
  parse_dict n (s +:+ String "}" (String nl later)) o
    = Ok (String "}" (String nl later), o').
Proof.
  set (cl := String "}" (String nl later)).
  assert (∀ m x, parse_dict (S m) cl x = Ok (cl, x)) as Hstop.
  { intros m x. apply (parse_dict_stop_line m "}" later); [discriminate|reflexivity..]. }
  revert s o r o'. induction n as [|n IH]; intros s o r o' Hs; [done|].
  pose proof (index_of_lstrip_None _ _ Hs) as Hcs.
  destruct (decide (lstrip s = EmptyString)) as [Hblank|Hne].
  { rewrite <- (parse_dict_lstrip (S n) (s +:+ cl)), (lstrip_app_blank _ _ Hblank).
    change (lstrip cl) with cl. rewrite Hstop.
    cbn [parse_dict]. rewrite Hblank. simpl. by intros [= <- <-] _. }
  rewrite <- (parse_dict_lstrip (S n) s), <- (parse_dict_lstrip (S n) (s +:+ cl)).
  rewrite (lstrip_app_keep _ _ Hne).
  set (cs := lstrip s) in *.
  assert (lstrip cs = cs) as Hidem by apply lstrip_idemp.
  assert (lstrip (cs +:+ cl) = cs +:+ cl) as Hidem'.
  { rewrite (lstrip_app_keep cs cl) by (by rewrite Hidem). by rewrite Hidem. }
  cbn [parse_dict]. rewrite Hidem, Hidem'.
  destruct (index_of nl cs) as [i|] eqn:Hi; cycle 1.
  { rewrite (find_None _ _ Hi). simpl. intros [= <- <-] Hr. by rewrite Hidem in Hr. }
  pose proof (index_of_lt _ _ _ Hi) as Hilen.
  rewrite (find_Some _ _ _ Hi), (find_Some _ _ _ (index_of_app_Some _ _ cl _ Hi)).
  destruct (Z.of_nat i <=? 0)%Z eqn:Hpos.
  { intros [= <- <-] Hr. by rewrite Hidem in Hr. }
  rewrite (slice_to_app_le cs cl i) by lia.
  set (line := slice_to cs (Z.of_nat i)).
  assert (len line = i) as Hline.
  { unfold line, slice_to. rewrite bound_of_nat, len_take. lia. }
  assert (index_of "[" line = None) as Hll by (by apply index_of_take).
  rewrite (find_None _ _ Hll).
  destruct (find ":" line >? -1)%Z eqn:Hk.
  { rewrite (slice_from_app_le cs cl i) by lia. apply IH.
    by apply index_of_drop_None. }
  change (-1 >? -1)%Z with false. cbv iota.
  destruct (index_of "{" line) as [j|] eqn:Hj; cycle 1.
  { rewrite (find_None _ _ Hj). simpl. intros [= <- <-] Hr. by rewrite Hidem in Hr. }
  pose proof (index_of_lt _ _ _ Hj) as Hjlen.
  rewrite (find_Some _ _ _ Hj).
  destruct (Z.gtb_spec (Z.of_nat j) (-1)) as [_|?]; [|lia].
  rewrite (slice_from_app_le cs cl j) by lia.
  intros ([r1 d1] & Hnested & Htail)%bind_Ok_inv Hr.
  destruct (parse_dict_hands_back _ _ _ _ _ Hnested) as [Hr1 Hback].
  destruct n as [|m]; [done|].
  rewrite Hr1, Hback in Htail. injection Htail as <- <-.
  rewrite (IH (slice_from cs (Z.of_nat j + 1)) ∅ r1 d1
             (index_of_drop_None _ _ _ Hcs) Hnested Hr).
  change (lstrip cl) with cl. cbn [mbind outcome_bind]. apply Hstop.
Qed.

(** No exception of the repository comes out of the parser. *)
Lemma parse_never_signals (n : nat) (msg : string) :
  (∀ s o, parse_dict n s o ≠ Raise (TritonModelAnalyzerException msg)) ∧
  (∀ s o, parse_list n s o ≠ Raise (TritonModelAnalyzerException msg)).
Proof.
  split; intros s o Hp; by apply (parse_raises_IndexError n) in Hp.
Qed.

End unclosed_contexts.

Section parser_claims.
Import PyStr.

(** C6: the scenario text (name, platform, max_batch_size and an
    instance_group list holding one dict) parses, with enough fuel, to
    the Message with Scalar name "m1", Scalar platform "tensorrt", Scalar
    max_batch_size "8" (a string, not a number) and instance_group a List
    of exactly one Message with count "2". *)
Theorem C6_scenario_parses (fs : filesystem) (model_path : string) (fuel : nat) :
  fs (path_join model_path "config.pbtxt") = Some Scenario.config_text →
  7 ≤ fuel →
  parse_model_config fs fuel model_path =
    Ok (<["name" := Scalar "m1"]>
          (<["platform" := Scalar "tensorrt"]>
             (<["max_batch_size" := Scalar "8"]>
                (<["instance_group" :=
                     ListV [Message (<["count" := Scalar "2"]> ∅)]]> ∅)))).
Proof.
  intros Hfs Hfuel. unfold parse_model_config. rewrite Hfs.
  assert (parse_dict 7 Scenario.config_text ∅ = Ok (EmptyString, Scenario.config_message))
    as H7 by (vm_compute; reflexivity).
  by rewrite (parse_dict_fuel_mono _ _ _ _ _ H7 Hfuel).
Qed.

Lemma C6_scenario_parses_witness :
  parse_model_config (Scenario.fs_with Scenario.config_text) 7 "/models/m1" =
    Ok Scenario.config_message.
Proof.
  apply (C6_scenario_parses (Scenario.fs_with Scenario.config_text) "/models/m1" 7);
    [reflexivity | lia].
Defined.

(** C7 as stated fails: a text that ends right after an opening
    bracket makes the parser raise the built-in IndexError, which is no
    exception of the repository, and a text that ends after a list item
    is never finished with. *)
Lemma C7_counterexample :
  parse_model_config (Scenario.fs_with Scenario.open_list_blank) 2 "/models/m1"
    = Raise IndexError
  ∧ parse_model_config (Scenario.fs_with Scenario.open_list_item) 1000 "/models/m1"
    = OutOfFuel.
Proof. split; vm_compute; reflexivity. Qed.

(** C7, amended: a configuration file that cannot be opened is
    signalled by the error of [open].  The parser has no error of its
    own for malformed text: no outcome of [parse_dict] or [parse_list]
    is the exception of the repository.  When the text ends inside an
    open list (no closing bracket ahead), the list parser never returns
    a tree; it raises IndexError when only blanks are left, and it does
    not terminate when the text left starts with an item.  When a text
    without lists ends inside open dicts, nothing is signalled and the
    tree is the one of the text with a closing brace added: whenever the
    dict parser returns having used up such a text, it returns the same
    tree, and hands the brace back, on the text followed by a line with
    a closing brace. *)
Theorem C7_unclosed_contexts :
  (∀ (fs : filesystem) fuel model_path,
     fs (path_join model_path "config.pbtxt") = None →
     parse_model_config fs fuel model_path = Raise OSError)
  ∧ (∀ fuel s out msg,
       parse_dict fuel s out ≠ Raise (TritonModelAnalyzerException msg))
  ∧ (∀ fuel s out msg,
       parse_list fuel s out ≠ Raise (TritonModelAnalyzerException msg))
  ∧ (∀ fuel s out r, no_close s → parse_list fuel s out ≠ Ok r)
  ∧ (∀ fuel s out,
       lstrip s = EmptyString → parse_list (S fuel) s out = Raise IndexError)
  ∧ (∀ fuel s out c r,
       lstrip s = String c r → c ≠ "]"%char → c ≠ "{"%char → no_close s →
       parse_list fuel s out = OutOfFuel)
  ∧ (∀ fuel s later out rest out',
       index_of "[" s = None →
       parse_dict fuel s out = Ok (rest, out') →
       lstrip rest = EmptyString →
       parse_dict fuel (s +:+ String "}" (String nl later)) out
         = Ok (String "}" (String nl later), out'))
  ∧ (∀ (fs fs' : filesystem) fuel model_path s later rest tree,
       fs (path_join model_path "config.pbtxt") = Some s →
       fs' (path_join model_path "config.pbtxt")
         = Some (s +:+ String "}" (String nl later)) →
       index_of "[" s = None →
       parse_dict fuel s ∅ = Ok (rest, tree) →
       lstrip rest = EmptyString →
       parse_model_config fs fuel model_path = Ok tree
       ∧ parse_model_config fs' fuel model_path = Ok tree).
Proof.
  split_and!.
  - intros fs fuel model_path Hfs. unfold parse_model_config. by rewrite Hfs.
  - intros fuel s out msg. apply (parse_never_signals fuel msg).
  - intros fuel s out msg. apply (parse_never_signals fuel msg).
  - intros fuel s out r Hs. by apply (parse_no_close fuel).
  - intros fuel s out Hs. simpl. by rewrite Hs.
  - intros fuel s out c r. apply parse_list_diverges.
  - intros fuel s later out rest out'. apply parse_dict_as_if_closed.
  - intros fs fs' fuel model_path s later rest tree Hfs Hfs' Hs Hp Hrest.
    unfold parse_model_config. rewrite Hfs, Hfs', Hp.
    by rewrite (parse_dict_as_if_closed _ _ later _ _ _ Hs Hp Hrest).
Qed.

Lemma C7_unclosed_contexts_witness :
  parse_model_config (λ _, None) 5 "/models/m1" = Raise OSError
  ∧ parse_list 5 "x, y" [] ≠ Ok (EmptyString, [Scalar "x"; Scalar "y"])
  ∧ parse_list 1 " " [] = Raise IndexError
  ∧ parse_list 5 "x, y" [] = OutOfFuel
  ∧ parse_dict 3 (Scenario.open_dict +:+ String "}" (String nl "c: 2")) ∅ =
      Ok (String "}" (String nl "c: 2"), <["a" := Message (<["b" := Scalar "1"]> ∅)]> ∅)
  ∧ parse_model_config (Scenario.fs_with Scenario.open_dict) 3 "/models/m1"
    = Ok (<["a" := Message (<["b" := Scalar "1"]> ∅)]> ∅).
Proof.
  destruct C7_unclosed_contexts as (H1 & _ & _ & H4 & H5 & H6 & H7 & H8).
  split_and!.
  - apply H1. reflexivity.
  - apply H4. reflexivity.
  - apply H5. reflexivity.
  - apply (H6 5 "x, y" [] "x"%char ", y"); [reflexivity | discriminate | discriminate | reflexivity].
  - apply (H7 3 Scenario.open_dict "c: 2" ∅ EmptyString); reflexivity.
  - refine (proj1 (H8 (Scenario.fs_with Scenario.open_dict)
                      (Scenario.fs_with (Scenario.open_dict +:+ String "}" (String nl EmptyString)))
                      3 "/models/m1" Scenario.open_dict EmptyString EmptyString _ _ _ _ _ _));
      reflexivity.
Defined.

Lemma find_no_line_break (text : string) :
  find nl text = (-1)%Z → index_of nl text = None.
Proof. unfold find. destruct (index_of nl text); [lia|done]. Qed.

(** C10: on a text without a line break the dict parser returns in its
    first iteration: nothing is added to the output, nothing is raised,
    and the text is handed back (less the leading blanks that [lstrip]
    drops), so that the top-level parse of such a text is the empty
    Message; a last line without a line break, as in
    [unterminated_last_line], is left out of the Message in the same
    way. *)
Theorem C10_no_line_break (text : string) (output : gmap string ConfigValue)
    (fuel : nat) (fs : filesystem) (model_path : string) :
  find nl text = (-1)%Z →
  fs (path_join model_path "config.pbtxt") = Some text →
  parse_dict (S fuel) text output = Ok (lstrip text, output)
  ∧ parse_model_config fs (S fuel) model_path = Ok ∅
  ∧ parse_dict (S (S fuel)) Scenario.unterminated_last_line ∅ =
      Ok ("b: 2", <["a" := Scalar "1"]> ∅).
Proof.
  intros Hnl%find_no_line_break Hfs.
  assert (∀ o, parse_dict (S fuel) text o = Ok (lstrip text, o)) as Hd.
  { intros o. simpl. by rewrite (find_None _ _ (index_of_lstrip_None _ _ Hnl)). }
  split; [done|split].
  - unfold parse_model_config. by rewrite Hfs, Hd.
  - apply (parse_dict_fuel_mono 2); [vm_compute; reflexivity | lia].
Qed.

Lemma C10_no_line_break_witness :
  parse_dict 1 "  key: value" ∅ = Ok ("key: value", ∅)
  ∧ parse_model_config (Scenario.fs_with "  key: value") 1 "/models/m1" = Ok ∅
  ∧ parse_dict 2 Scenario.unterminated_last_line ∅ =
      Ok ("b: 2", <["a" := Scalar "1"]> ∅).
Proof.
  apply (C10_no_line_break "  key: value" ∅ 0
           (Scenario.fs_with "  key: value") "/models/m1");
    reflexivity.
Defined.

End parser_claims.

(** ** ModelConfig *)

Section model_config_claims.
Import PyStr ModelConfig.

(** Blanks around the text that [int] reads. *)
Lemma int_lstrip_app_blank (s t : string) :
  int_lstrip s = EmptyString → int_lstrip (s +:+ t) = int_lstrip t.
Proof.
  induction s as [|a s IH]; [done|]. rewrite app_String. simpl.
  destruct (int_isspace a); [exact IH|done].
Qed.

Lemma int_rstrip_app_blank (s post : string) :
  int_rstrip post = EmptyString → int_rstrip (s +:+ post) = int_rstrip s.
Proof.
  intros Hp. induction s as [|a s IH]; [by rewrite app_empty_l|].
  rewrite app_String. simpl. by rewrite IH.
Qed.

Lemma int_rstrip_app_keep (s d : string) :
  d ≠ EmptyString → int_rstrip d = d → int_rstrip (s +:+ d) = s +:+ d.
Proof.
  intros Hne Hd. induction s as [|a s IH]; [by rewrite app_empty_l|].
  rewrite app_String. simpl. rewrite IH.
  destruct (s +:+ d) eqn:E; [|done].
  destruct s; [by rewrite app_empty_l in E|discriminate].
Qed.

(** The decimal notation of a number is made of digits: [int] reads it
    back, and stripping leaves it alone. *)
Lemma int_digits_uint (u : Decimal.uint) (acc : nat) :
  int_digits (Z.of_nat acc) (NilEmpty.string_of_uint u)
  = Some (Z.of_nat (Nat.of_uint_acc u acc)).
Proof.
  revert acc.
  assert (∀ acc d : nat, (10 * Z.of_nat acc + Z.of_nat d
                          = Z.of_nat (d + Nat.tail_mul 10 acc))%Z) as Hacc.
  { intros acc d. rewrite Nat.tail_mul_spec. lia. }
  induction u as [|u IH|u IH|u IH|u IH|u IH|u IH|u IH|u IH|u IH|u IH];
    intros acc; [done|..]; cbn [NilEmpty.string_of_uint int_digits Nat.of_uint_acc].
  - change (digit_of "0") with (Some (Z.of_nat 0)). cbv iota. rewrite Hacc. apply IH.
  - change (digit_of "1") with (Some (Z.of_nat 1)). cbv iota. rewrite Hacc. apply IH.
  - change (digit_of "2") with (Some (Z.of_nat 2)). cbv iota. rewrite Hacc. apply IH.
  - change (digit_of "3") with (Some (Z.of_nat 3)). cbv iota. rewrite Hacc. apply IH.
  - change (digit_of "4") with (Some (Z.of_nat 4)). cbv iota. rewrite Hacc. apply IH.
  - change (digit_of "5") with (Some (Z.of_nat 5)). cbv iota. rewrite Hacc. apply IH.
  - change (digit_of "6") with (Some (Z.of_nat 6)). cbv iota. rewrite Hacc. apply IH.
  - change (digit_of "7") with (Some (Z.of_nat 7)). cbv iota. rewrite Hacc. apply IH.
  - change (digit_of "8") with (Some (Z.of_nat 8)). cbv iota. rewrite Hacc. apply IH.
  - change (digit_of "9") with (Some (Z.of_nat 9)). cbv iota. rewrite Hacc. apply IH.
Qed.

Lemma uint_string_digits (u : Decimal.uint) :
  let d := NilEmpty.string_of_uint u in
  int_rstrip d = d ∧ count_digits d = len d.
Proof.
  induction u as [|u [IHr IHc]|u [IHr IHc]|u [IHr IHc]|u [IHr IHc]|u [IHr IHc]
                  |u [IHr IHc]|u [IHr IHc]|u [IHr IHc]|u [IHr IHc]|u [IHr IHc]];
    [done|..]; cbn zeta in *; cbn [NilEmpty.string_of_uint];
    (split; [cbn [int_rstrip]; rewrite IHr; by destruct (NilEmpty.string_of_uint u)
            |cbn [count_digits len]; by rewrite <- IHc]).
Qed.

Lemma int_strip_app (pre core post : string) :
  int_lstrip pre = EmptyString → int_rstrip post = EmptyString →
  core ≠ EmptyString → int_lstrip core = core → int_rstrip core = core →
  int_strip (pre +:+ core +:+ post) = core.
Proof.
  intros Hpre Hpost Hne Hl Hr. unfold int_strip.
  rewrite <- app_assoc_str, (int_rstrip_app_blank _ _ Hpost), (int_rstrip_app_keep _ _ Hne Hr).
  by rewrite (int_lstrip_app_blank _ _ Hpre).
Qed.

Lemma uint_literal (u : Decimal.uint) :
  let d := NilZero.string_of_uint u in
  d ≠ EmptyString ∧ int_lstrip d = d ∧ int_rstrip d = d ∧ count_digits d = len d
  ∧ int_literal d = Some (Z.of_nat (Nat.of_uint u))
  ∧ match d with
    | String "-" s' => Z.opp <$> int_literal s'
    | String "+" s' => int_literal s'
    | s' => int_literal s'
    end = int_literal d.
Proof.
  destruct (uint_string_digits u) as [Hr Hc].
  unfold NilZero.string_of_uint.
  destruct u as [|u|u|u|u|u|u|u|u|u|u]; [by split_and!|..]; cbn zeta in *;
    (split_and!; [done|done|exact Hr|exact Hc| |done]).
  - exact (int_digits_uint u 0).
  - exact (int_digits_uint u 1).
  - exact (int_digits_uint u 2).
  - exact (int_digits_uint u 3).
  - exact (int_digits_uint u 4).
  - exact (int_digits_uint u 5).
  - exact (int_digits_uint u 6).
  - exact (int_digits_uint u 7).
  - exact (int_digits_uint u 8).
  - exact (int_digits_uint u 9).
Qed.

(** [int] on the decimal notation of a number, with an optional sign
    right before it and blanks around. *)
Lemma int_of_str_decimal (u : Decimal.uint) (sign pre post : string) :
  int_lstrip pre = EmptyString → int_rstrip post = EmptyString →
  (Z.of_nat (len (NilZero.string_of_uint u)) ≤ max_str_digits)%Z →
  sign = EmptyString ∨ sign = "+" ∨ sign = "-" →
  int_of_str (pre +:+ (sign +:+ NilZero.string_of_uint u) +:+ post)
  = Ok (if String.eqb sign "-" then - Z.of_nat (Nat.of_uint u)
        else Z.of_nat (Nat.of_uint u))%Z.
Proof.
  intros Hpre Hpost Hlen Hsign.
  destruct (uint_literal u) as (Hne & Hl & Hr & Hc & Hlit & Hmatch).
  set (d := NilZero.string_of_uint u) in *. cbv zeta in *.
  assert ((max_str_digits <? Z.of_nat (len d))%Z = false) as Hlimit by lia.
  unfold int_of_str.
  destruct Hsign as [->|[->| ->]].
  - rewrite app_empty_l, (int_strip_app _ _ _ Hpre Hpost Hne Hl Hr).
    cbv zeta. by rewrite Hmatch, Hlit, Hc, Hlimit.
  - rewrite app_String, app_empty_l.
    rewrite (int_strip_app pre (String "+" d) post Hpre Hpost); [|done|done|].
    + cbv zeta. cbn [count_digits]. change (digit_of "+") with (@None Z).
      cbv iota. by rewrite Hlit, Hc, Hlimit.
    + cbn [int_rstrip]. rewrite Hr. by destruct d.
  - rewrite app_String, app_empty_l.
    rewrite (int_strip_app pre (String "-" d) post Hpre Hpost); [|done|done|].
    + cbv zeta. cbn [count_digits]. change (digit_of "-") with (@None Z).
      cbv iota. by rewrite Hlit, Hc, Hlimit.
    + cbn [int_rstrip]. rewrite Hr. by destruct d.
Qed.

Lemma int_of_str_no_literal (s : string) (ch : ascii) (r : string) :
  int_strip s = String ch r → digit_of ch = None → ch ≠ "+"%char → ch ≠ "-"%char →
  int_of_str s = Raise ValueError.
Proof.
  intros Hs Hd Hplus Hminus. unfold int_of_str. rewrite Hs.
  destruct ch as [[] [] [] [] [] [] [] []];
    first [reflexivity | done | by vm_compute in Hd].
Qed.

(** C8 as stated fails: with the key there, [max_batch_size] does not
    return what is stored when that is no number.  A word makes [int]
    raise ValueError, also when it comes from a parsed file, and a list
    makes it raise TypeError. *)
Lemma C8_counterexample :
  _config Scenario.word_batch_size !! "max_batch_size" = Some (Scalar "abc")
  ∧ max_batch_size Scenario.word_batch_size = Raise ValueError
  ∧ _config Scenario.list_batch_size !! "max_batch_size" = Some (ListV [Scalar "8"])
  ∧ max_batch_size Scenario.list_batch_size = Raise TypeError
  ∧ (c ← ModelConfig.__init__
           (Scenario.fs_with ("max_batch_size: eight" +:+ chr nl)) 2 "/models/m1"
           None None;
     max_batch_size c) = Raise ValueError.
Proof. repeat split; vm_compute; reflexivity. Qed.

(** C8, amended: each of the five accessors raises the repository's
    exception, with a message naming the field, when the root Message
    lacks the key, and so never answers with a placeholder.  When the key
    is there, [name], [platform], [instance_group] and
    [dynamic_batching] return the stored value as it is, and
    [max_batch_size] passes it through [int]: a stored string that is
    the decimal notation of a natural number [n], of at most 4300
    digits, possibly with a sign right before it and blanks around, is
    returned as [n], or as [-n] under a minus sign; a stored string that
    is blank, or whose first non-blank character is neither a digit nor
    a sign, raises ValueError; a stored list or dict raises TypeError.
    Blanks are here the characters that [int] skips. *)
Theorem C8_accessors_strict (c : ModelConfig.t) :
  match _config c !! "name" with
  | None => ∃ msg, name c = Raise (TritonModelAnalyzerException msg)
                   ∧ contains "name" msg = true
  | Some v => name c = Ok v
  end
  ∧ match _config c !! "platform" with
    | None => ∃ msg, platform c = Raise (TritonModelAnalyzerException msg)
                     ∧ contains "platform" msg = true
    | Some v => platform c = Ok v
    end
  ∧ match _config c !! "max_batch_size" with
    | None => ∃ msg, max_batch_size c = Raise (TritonModelAnalyzerException msg)
                     ∧ contains "max_batch_size" msg = true
    | Some (Scalar s) =>
        (∀ (n : nat) (sign pre post : string),
           s = pre +:+ (sign +:+ str_of_nat n) +:+ post →
           int_lstrip pre = EmptyString → int_rstrip post = EmptyString →
           (Z.of_nat (len (str_of_nat n)) ≤ max_str_digits)%Z →
           (sign = EmptyString ∨ sign = "+" → max_batch_size c = Ok (Z.of_nat n))
           ∧ (sign = "-" → max_batch_size c = Ok (- Z.of_nat n)%Z))
        ∧ (int_strip s = EmptyString → max_batch_size c = Raise ValueError)
        ∧ (∀ ch r,
             int_strip s = String ch r → digit_of ch = None →
             ch ≠ "+"%char → ch ≠ "-"%char →
             max_batch_size c = Raise ValueError)
    | Some (ListV _) | Some (Message _) => max_batch_size c = Raise TypeError
    end
  ∧ match _config c !! "instance_group" with
    | None => ∃ msg, instance_group c = Raise (TritonModelAnalyzerException msg)
                     ∧ contains "instance_group" msg = true
    | Some v => instance_group c = Ok v
    end
  ∧ match _config c !! "dynamic_batching" with
    | None => ∃ msg, dynamic_batching c = Raise (TritonModelAnalyzerException msg)
                     ∧ contains "dynamic_batching" msg = true
    | Some v => dynamic_batching c = Ok v
    end.
Proof.
  unfold name, platform, max_batch_size, instance_group, dynamic_batching.
  split_and!.
  - case_match; [done|]. eexists; split; [done|]. apply (contains_app "name" "Model's " _).
  - case_match; [done|]. eexists; split; [done|]. apply (contains_app "platform" "Model's " _).
  - destruct (_config c !! "max_batch_size") as [[s|l|m]|]; [|done|done|].
    + split_and!.
      * intros n sign pre post -> Hpre Hpost Hlen. unfold py_int, str_of_nat in *.
        split; intros Hsign.
        -- rewrite (int_of_str_decimal _ sign _ _ Hpre Hpost Hlen) by tauto.
           rewrite DecimalNat.Unsigned.of_to. by destruct Hsign as [-> | ->].
        -- subst sign. rewrite (int_of_str_decimal _ "-" _ _ Hpre Hpost Hlen) by tauto.
           by rewrite DecimalNat.Unsigned.of_to.
      * intros Hs. unfold py_int, int_of_str. by rewrite Hs.
      * intros ch r. apply int_of_str_no_literal.
    + eexists; split; [done|]. apply (contains_app "max_batch_size" "Model's " _).
  - case_match; [done|]. eexists; split; [done|]. by do 2 apply contains_app_r.
  - case_match; [done|]. eexists; split; [done|]. by do 2 apply contains_app_r.
Qed.

Lemma C8_accessors_strict_witness :
  let c := {| _model_path := "/models/m1"; _config := Scenario.config_message |} in
  name c = Ok (Scalar "m1")
  ∧ max_batch_size c = Ok 8%Z
  ∧ (∃ msg, dynamic_batching c = Raise (TritonModelAnalyzerException msg)
            ∧ contains "dynamic_batching" msg = true).
Proof.
  intros c.
  destruct (C8_accessors_strict c) as (Hn & _ & Hm & _ & Hd).
  split_and!.
  - exact Hn.
  - refine (proj1 (proj1 Hm 8 EmptyString EmptyString EmptyString _ _ _ _) _);
      [reflexivity | reflexivity | reflexivity | vm_compute; discriminate
      | by left].
  - exact Hd.
Defined.

(** C9: [set_instance_group] (and likewise [set_dynamic_batching])
    overwrites its own root key whatever was there before: the matching
    accessor then returns the given value, every other root key reads
    as before, and the model path is kept. *)
Theorem C9_setters_frame (c : ModelConfig.t) (v : ConfigValue) (k : string) :
  instance_group (set_instance_group c v) = Ok v
  ∧ dynamic_batching (set_dynamic_batching c v) = Ok v
  ∧ (k ≠ "instance_group" →
     _config (set_instance_group c v) !! k = _config c !! k)
  ∧ (k ≠ "dynamic_batching" →
     _config (set_dynamic_batching c v) !! k = _config c !! k)
  ∧ _model_path (set_instance_group c v) = _model_path c
  ∧ _model_path (set_dynamic_batching c v) = _model_path c.
Proof.
  unfold instance_group, dynamic_batching, set_instance_group, set_dynamic_batching.
  simpl. rewrite !lookup_insert_eq.
  repeat split; try done; intros Hk; by rewrite lookup_insert_ne.
Qed.

Lemma C9_setters_frame_witness :
  let c := {| _model_path := "/models/m1"; _config := Scenario.config_message |} in
  let v := Message (<["count" := Scalar "4"]> ∅) in
  instance_group (set_instance_group c v) = Ok v
  ∧ dynamic_batching (set_dynamic_batching c v) = Ok v
  ∧ _config (set_instance_group c v) !! "name" = _config c !! "name"
  ∧ _config (set_dynamic_batching c v) !! "name" = _config c !! "name".
Proof.
  intros c v.
  destruct (C9_setters_frame c v "name") as (H1 & H2 & H3 & H4 & _).
  split; [exact H1|split; [exact H2|split]].
  - apply H3. discriminate.
  - apply H4. discriminate.
Defined.

End model_config_claims.

(** ** ResultComparator *)

Section comparator_facts.
Context {K : Type} `{RecordType K}.
Import ResultComparator.

Lemma Qltb_lt (x y : Q) : Qltb x y = true ↔ (x < y)%Q.
Proof. unfold Qltb, Qlt. apply Z.ltb_lt. Qed.

Lemma Qltb_ge (x y : Q) : (y <= x)%Q → Qltb x y = false.
Proof.
  intros Hle. destruct (Qltb x y) eqn:Hlt; [|done].
  apply Qltb_lt in Hlt. by apply Qle_not_lt in Hle.
Qed.

(** The priority loop never reads the GPU averages. *)
Lemma priority_loop_ignores_gpu_averages (self : t) (priorities : list K)
    (gpu1 gpu1' gpu2 gpu2' non_gpu1 non_gpu2 : list Q) :
  priority_loop self priorities gpu1 non_gpu1 gpu2 non_gpu2 =
  priority_loop self priorities gpu1' non_gpu1 gpu2' non_gpu2.
Proof.
  induction priorities as [|p rest IH]; simpl; [done|].
  destruct (_gpu_type_to_idx self !! p); [|done].
  destruct (threshold_test _ _ _ _) as [[r|]| |]; simpl; done.
Qed.

(** A priority kind that the GPU index lacks is rejected, whether or
    not the non-GPU index has it. *)
Lemma priority_outside_gpu_index (self : t) (p : K) (rest : list K)
    (gpu1 non_gpu1 gpu2 non_gpu2 : list Q) :
  _gpu_type_to_idx self !! p = None →
  priority_loop self (p :: rest) gpu1 non_gpu1 gpu2 non_gpu2 =
    Raise (TritonModelAnalyzerException
             ("Category unknown for objective : '" +:+ str_of_kind p +:+ "'")).
Proof. intros Hp. simpl. by rewrite Hp. Qed.

Lemma list_getitem_finished {A : Type} (l : list A) (i : nat) :
  list_getitem l i ≠ OutOfFuel.
Proof. unfold list_getitem. by destruct (l !! i). Qed.

Lemma mapM_finished {A B : Type} (f : A → outcome B) (l : list A) :
  (∀ x, f x ≠ OutOfFuel) → mapM f l ≠ OutOfFuel.
Proof.
  intros Hf. induction l as [|x l IH]; simpl; [done|].
  specialize (Hf x). destruct (f x); simpl; [|done..].
  by destruct (mapM f l).
Qed.

Lemma _average_list_finished {R : Type} `{Subscript R} (row_list : list R) :
  (∀ r i, py_getitem r i ≠ OutOfFuel) → _average_list row_list ≠ OutOfFuel.
Proof.
  intros Hget. unfold _average_list. destruct row_list as [|row0 rest]; [done|].
  apply mapM_finished. intros i.
  pose proof (mapM_finished
    (λ j, r ← list_getitem (row0 :: rest) j; py_getitem r i)
    (seq 0 (length (row0 :: rest)))) as Hcol.
  destruct (mapM _ _); simpl; [done|done|].
  exfalso. apply Hcol; [|done]. intros j.
  pose proof (list_getitem_finished (row0 :: rest) j).
  destruct (list_getitem (row0 :: rest) j); simpl; [apply Hget|done..].
Qed.

(** Averaging always finishes: it has no unbounded loop. *)
Lemma _average_measurements_finished {R : Type} `{Measured R} (result : R) :
  _average_measurements result ≠ OutOfFuel.
Proof.
  unfold _average_measurements. destruct (get_measurements result) as [gm hm].
  pose proof (_average_list_finished (values <$> gm)) as Hg.
  pose proof (_average_list_finished hm) as Hh.
  destruct (_average_list (values <$> gm)); simpl; [|done|by exfalso; apply Hg].
  destruct (_average_list hm); simpl; [done|done|].
  exfalso. apply Hh; [|done]. intros r i. apply list_getitem_finished.
Qed.

End comparator_facts.

Section comparator_claims.
Import ResultComparator Scenario.

(** C1 fails on the code.  With one GPU-scoped priority kind, GPU
    averages 20 against 10 and host averages 10 against 10, the claim has
    diff = 10 above the threshold 0.2 and so +1.  The call raises
    TypeError while averaging the GPU rows (a [dict.values()] view is
    subscripted), and the priority loop, run on those averages, reads the
    host rows at the GPU index and answers 0. *)
Theorem C1_gpu_priority_reads_host_averages :
  __call__ by_gpu_kind gpu_a gpu_b = Raise TypeError
  ∧ _gpu_type_to_idx by_gpu_kind !! gpu_kind = Some 0
  ∧ priority_loop by_gpu_kind [gpu_kind] [20%Q] [10%Q] [10%Q] [10%Q] = Ok 0%Z
  ∧ threshold_test (_comparison_threshold_factor by_gpu_kind) [20%Q] [10%Q] 0
    = Ok (Some 1%Z).
Proof. repeat split; vm_compute; reflexivity. Qed.

(** C2 fails on the code.  A priority kind listed only among the
    non-GPU kinds is rejected as unknown: the loop consults the GPU index
    alone. *)
Theorem C2_host_only_kind_rejected :
  _non_gpu_type_to_idx by_host_kind !! host_kind = Some 0
  ∧ _gpu_type_to_idx by_host_kind !! host_kind = None
  ∧ __call__ by_host_kind host_a host_b =
      Raise (TritonModelAnalyzerException
               "Category unknown for objective : 'perf_throughput'").
Proof. repeat split; vm_compute; reflexivity. Qed.

(** C4 fails on the code.  With threshold percent 1 and the single
    host-scoped priority kind, host averages 100 against 99 differ by
    exactly one percent of the first.  The test that the first branch of
    the loop makes on these averages does not decide, which would give
    0; but the kind, listed among the non-GPU kinds only, is looked up
    in the GPU index and rejected as unknown before any test. *)
Theorem C4_host_scoped_boundary_rejected :
  _metric_priorities by_host_kind = [host_kind]
  ∧ _non_gpu_type_to_idx by_host_kind !! host_kind = Some 0
  ∧ _gpu_type_to_idx by_host_kind !! host_kind = None
  ∧ (_comparison_threshold_factor by_host_kind == 1 # 100)%Q
  ∧ (100 - 99 == (1 # 100) * 100)%Q
  ∧ get_measurements boundary_a = ([], [[100%Q]])
  ∧ get_measurements boundary_b = ([], [[99%Q]])
  ∧ threshold_test (_comparison_threshold_factor by_host_kind) [100%Q] [99%Q] 0
    = Ok None
  ∧ __call__ by_host_kind boundary_a boundary_b =
      Raise (TritonModelAnalyzerException
               "Category unknown for objective : 'perf_throughput'").
Proof. repeat split; vm_compute; reflexivity. Qed.

(** C5 as stated fails: comparing two results without any data under
    a one-priority comparator raises IndexError, the empty average row
    being subscripted. *)
Lemma C5_counterexample :
  get_measurements no_data = ([], [])
  ∧ __call__ by_gpu_kind no_data no_data = Raise IndexError.
Proof. split; vm_compute; reflexivity. Qed.

(** C5, amended: for a result without any data the averaging yields
    the empty row for both universes and raises nothing; comparing such a
    result returns 0 when the priority list is empty and the other result
    averages without failure, and raises an exception when the priority
    list is not empty. *)
Theorem C5_no_data {K : Type} `{RecordType K} {R : Type} `{Measured R}
    (self : t) (r other : R) :
  get_measurements r = ([], []) →
  _average_measurements r = Ok ([], [])
  ∧ (_metric_priorities self = [] →
     (∃ avgs, _average_measurements other = Ok avgs) →
     __call__ self r other = Ok 0%Z ∧ __call__ self other r = Ok 0%Z)
  ∧ (_metric_priorities self ≠ [] → raises (__call__ self r other)).
Proof.
  intros Hr.
  assert (_average_measurements r = Ok ([], [])) as Havg.
  { unfold _average_measurements. by rewrite Hr. }
  split; [done|split].
  - intros Hp [[g h] Ho]. unfold __call__. by rewrite Havg, Ho, Hp.
  - intros Hp. unfold __call__, raises. rewrite Havg. simpl.
    destruct (_average_measurements other) as [[g h]|e|] eqn:Ho; simpl.
    + destruct (_metric_priorities self) as [|p rest]; [done|]. simpl.
      destruct (_gpu_type_to_idx self !! p) as [idx|]; simpl; eauto.
    + eauto.
    + by apply _average_measurements_finished in Ho.
Qed.

Lemma C5_no_data_witness :
  _average_measurements no_data = Ok ([], [])
  ∧ __call__ no_priorities no_data host_a = Ok 0%Z
  ∧ __call__ no_priorities host_a no_data = Ok 0%Z
  ∧ raises (__call__ by_gpu_kind no_data host_a).
Proof.
  destruct (C5_no_data no_priorities no_data host_a) as (H1 & H2 & _);
    [reflexivity|].
  destruct (C5_no_data by_gpu_kind no_data host_a) as (_ & _ & H3);
    [reflexivity|].
  split; [exact H1|].
  destruct H2 as [H2a H2b]; [reflexivity | by eexists |].
  split; [exact H2a|split; [exact H2b|]].
  apply H3. discriminate.
Defined.

End comparator_claims.

(** ** ResultManager *)

Section manager_claims.
Import ResultComparator Scenario.

(** [a < b] holds exactly when the comparator puts [a] below [b]. *)
Lemma lt_when_worse {K : Type} `{RecordType K} (self other : RunResult.t) (c : Z) :
  __call__ (RunResult._comparator self) self other = Ok c →
  RunResult.__lt__ self other = Ok (negb (c =? 1)%Z && negb (c =? 0)%Z).
Proof.
  intros Hc. unfold RunResult.__lt__, RunResult.__gt__, RunResult.__ne__, RunResult.__eq__.
  rewrite Hc. simpl. by destruct (c =? 1)%Z.
Qed.

(** C3 fails on the code.  Three results with host averages 10, 20 and
    15, ranked on that column with a larger average better, come out of
    [compile_results] as 10, 15, 20, the worst first, whatever the order
    of submission: the heap is a min-heap and [<] means worse.  With the
    kind listed only among the non-GPU kinds, the second
    [complete_result] raises instead. *)
Theorem C3_compile_emits_worst_first :
  ranking_rows by_gpu_kind [10; 20; 15]%Q = Ok (inference_row <$> [10; 15; 20]%Q)
  ∧ ranking_rows by_gpu_kind [20; 15; 10]%Q = Ok (inference_row <$> [10; 15; 20]%Q)
  ∧ ranking_rows by_gpu_kind [15; 10; 20]%Q = Ok (inference_row <$> [10; 15; 20]%Q)
  ∧ ranking_rows by_shared_kind [10; 20; 15]%Q = Ok (inference_row <$> [10; 15; 20]%Q)
  ∧ ranking_rows by_host_kind [10; 20; 15]%Q =
      Raise (TritonModelAnalyzerException
               "Category unknown for objective : 'perf_throughput'").
Proof. repeat split; vm_compute; reflexivity. Qed.

End manager_claims.

(** * Further properties of the modelled code *)

(** ** The parser, entry by entry *)

Section parser_entries.
Import PyStr.

(** X1: a line [key: value] in a dict context stores, under the text
    before the first colon, the text after it with its leading blanks
    and every double quote removed, whatever brackets the value holds;
    parsing goes on after the line break. *)
Theorem X1_scalar_entry (fuel : nat) (key value rest : string)
    (output : gmap string ConfigValue) :
  lstrip key = key →
  index_of ":" key = None →
  index_of nl key = None →
  index_of nl value = None →
  parse_dict (S fuel) (key +:+ String ":" (value +:+ String nl rest)) output =
  parse_dict fuel rest (<[key := Scalar (remove dquote (lstrip value))]> output).
Proof.
  intros Hkey Hcolon Hknl Hvnl.
  set (line := key +:+ String ":" value).
  assert (key +:+ String ":" (value +:+ String nl rest) = line +:+ String nl rest) as ->.
  { unfold line. by rewrite app_assoc_str, app_String. }
  assert (lstrip (line +:+ String nl rest) = line +:+ String nl rest) as Hls.
  { unfold line. destruct key as [|c key]; [done|].
    rewrite app_assoc_str. by apply lstrip_app. }
  assert (index_of nl line = None) as Hlnl.
  { unfold line. by apply index_of_app_None; [|simpl; rewrite Hvnl]. }
  assert (0 < len line) as Hlen.
  { unfold line. rewrite len_app. simpl. lia. }
  cbn [parse_dict]. rewrite Hls, (find_app_hit _ _ _ Hlnl).
  destruct (Z.leb_spec (Z.of_nat (len line)) 0) as [?|_]; [lia|].
  rewrite slice_to_app, slice_from_app.
  assert (find ":" line = Z.of_nat (len key)) as ->
    by apply (find_app_hit _ _ _ Hcolon).
  destruct (Z.gtb_spec (Z.of_nat (len key)) (-1)) as [_|?]; [|lia].
  unfold line. by rewrite slice_to_app, slice_from_app.
Qed.

Lemma X1_scalar_entry_witness :
  parse_dict 2 ("k: [1, 2]" +:+ chr nl) ∅ = Ok (EmptyString, <["k" := Scalar "[1, 2]"]> ∅).
Proof.
  etrans; [apply (X1_scalar_entry 1 "k" " [1, 2]" EmptyString ∅); reflexivity|].
  reflexivity.
Defined.

(** X2: a line that holds neither a colon nor an opening bracket (a
    closing brace, say) stops the dict parser: it returns what it has
    built, and hands the text back from that line on, the line
    included. *)
Theorem X2_line_without_delimiter_stops (fuel : nat) (line rest : string)
    (output : gmap string ConfigValue) :
  line ≠ EmptyString → lstrip line = line →
  index_of nl line = None → index_of ":" line = None →
  index_of "[" line = None → index_of "{" line = None →
  parse_dict (S fuel) (line +:+ String nl rest) output =
    Ok (line +:+ String nl rest, output).
Proof. apply parse_dict_stop_line. Qed.

Lemma X2_line_without_delimiter_stops_witness :
  parse_dict 1 ("}" +:+ String nl "c: 2") ∅ = Ok ("}" +:+ String nl "c: 2", ∅).
Proof.
  apply (X2_line_without_delimiter_stops 0 "}" "c: 2" ∅);
    [discriminate | reflexivity..].
Defined.

(** An entry [key {] in a dict context: the nested dict is parsed from
    the text after the brace, and the enclosing dict goes on with what
    the nested parse hands back. *)
Lemma parse_dict_nested_step (fuel : nat) (key tail more : string)
    (output : gmap string ConfigValue) :
  lstrip key = key →
  index_of nl key = None → index_of ":" key = None →
  index_of "[" key = None → index_of "{" key = None →
  index_of nl tail = None → index_of ":" tail = None → index_of "[" tail = None →
  parse_dict (S fuel) (key +:+ String "{" (tail +:+ String nl more)) output =
    '(rest, next_dict) ← parse_dict fuel (tail +:+ String nl more) ∅;
    parse_dict fuel (lstrip rest) (<[rstrip key := Message next_dict]> output).
Proof.
  intros Hkey Hknl Hkc Hkl Hkd Htnl Htc Htl.
  set (line := key +:+ String "{" tail).
  assert (key +:+ String "{" (tail +:+ String nl more) = line +:+ String nl more) as Htext.
  { unfold line. by rewrite app_assoc_str, app_String. }
  assert (lstrip (line +:+ String nl more) = line +:+ String nl more) as Hls.
  { unfold line. destruct key as [|c key]; [done|].
    rewrite app_assoc_str. by apply lstrip_app. }
  assert (index_of nl line = None) as Hlnl
    by (unfold line; apply index_of_app_None; [done|simpl; by rewrite Htnl]).
  assert (index_of ":" line = None) as Hlc
    by (unfold line; apply index_of_app_None; [done|simpl; by rewrite Htc]).
  assert (index_of "[" line = None) as Hll
    by (unfold line; apply index_of_app_None; [done|simpl; by rewrite Htl]).
  assert (find "{" line = Z.of_nat (len key)) as Hfd
    by apply (find_app_hit _ _ _ Hkd).
  assert (0 < len line) as Hlen by (unfold line; rewrite len_app; simpl; lia).
  rewrite Htext. cbn [parse_dict]. rewrite Hls, (find_app_hit _ _ _ Hlnl).
  destruct (Z.leb_spec (Z.of_nat (len line)) 0) as [?|_]; [lia|].
  rewrite slice_to_app, (find_None _ _ Hlc), (find_None _ _ Hll), Hfd.
  destruct (Z.gtb_spec (Z.of_nat (len key)) (-1)) as [_|?]; [|lia].
  change (-1 >? -1)%Z with false. cbv iota.
  rewrite <- Htext, slice_from_app. unfold line. by rewrite slice_to_app.
Qed.

(** X3: in a dict context the closing brace of a nested dict is not
    consumed.  After an entry [key {], once the nested parse hands back
    a text that starts with the line of the closing brace, the enclosing
    dict stores the nested dict and stops there: the entries that follow
    the brace are not parsed. *)
Theorem X3_nested_dict_ends_enclosing_dict (fuel : nat)
    (key tail more rest later : string)
    (next_dict output : gmap string ConfigValue) :
  lstrip key = key →
  index_of nl key = None → index_of ":" key = None →
  index_of "[" key = None → index_of "{" key = None →
  index_of nl tail = None → index_of ":" tail = None → index_of "[" tail = None →
  parse_dict (S fuel) (tail +:+ String nl more) ∅ = Ok (rest, next_dict) →
  lstrip rest = String "}" (String nl later) →
  parse_dict (S (S fuel)) (key +:+ String "{" (tail +:+ String nl more)) output =
    Ok (String "}" (String nl later), <[rstrip key := Message next_dict]> output).
Proof.
  intros Hkey Hknl Hkc Hkl Hkd Htnl Htc Htl Hinner Hrest.
  rewrite parse_dict_nested_step by done. rewrite Hinner. simpl mbind.
  rewrite Hrest.
  apply (parse_dict_stop_line fuel "}" later); [discriminate | reflexivity..].
Qed.

Lemma X3_nested_dict_ends_enclosing_dict_witness :
  parse_dict 3
    ("a " +:+ String "{" (EmptyString +:+
       String nl ("b: 1" +:+ chr nl +:+ "}" +:+ chr nl +:+ "c: 2" +:+ chr nl))) ∅ =
    Ok (String "}" (String nl ("c: 2" +:+ chr nl)),
        <["a" := Message (<["b" := Scalar "1"]> ∅)]> ∅).
Proof.
  apply (X3_nested_dict_ends_enclosing_dict 1 "a " EmptyString
           ("b: 1" +:+ chr nl +:+ "}" +:+ chr nl +:+ "c: 2" +:+ chr nl)
           ("}" +:+ chr nl +:+ "c: 2" +:+ chr nl) ("c: 2" +:+ chr nl)
           (<["b" := Scalar "1"]> ∅) ∅);
    reflexivity.
Defined.

(** One step of the list parser on a scalar item: [delimiter] is the
    position right after the item. *)
Lemma parse_list_item_step (fuel : nat) (item : string) (c : ascii) (tail : string)
    (output : list ConfigValue) :
  lstrip item = item →
  (∀ r, item ≠ String "{" r) →
  index_of "," item = None → index_of "]" item = None →
  (c = "," ∧ index_of "]" tail ≠ None ∨ c = "]" ∧ item ≠ EmptyString)%char →
  parse_list (S fuel) (item +:+ String c tail) output =
    parse_list fuel tail (output ++ [Scalar (strip item)]).
Proof.
  intros Hls Hbrace Hcomma Hclose Hc.
  assert (lstrip (item +:+ String c tail) = item +:+ String c tail) as Htext.
  { destruct item as [|a item]; [|by apply lstrip_app].
    rewrite app_empty_l. apply lstrip_String. by destruct Hc as [[-> _]|[_ ?]]. }
  assert (find "," (item +:+ String c tail) = Z.of_nat (len item)
          ∧ (Z.of_nat (len item) < find "]" (item +:+ String c tail))%Z
          ∨ find "]" (item +:+ String c tail) = Z.of_nat (len item)
            ∧ (find "," (item +:+ String c tail) = -1
               ∨ Z.of_nat (len item) < find "," (item +:+ String c tail))%Z)
    as Hdelim.
  { destruct Hc as [[-> Htail]|[-> _]].
    - left. split; [by apply find_app_hit|].
      unfold find. rewrite index_of_app by done. simpl.
      destruct (index_of "]" tail); [simpl; lia|done].
    - right. split; [by apply find_app_hit|].
      unfold find. rewrite index_of_app by done. simpl.
      destruct (index_of "," tail); simpl; lia. }
  cbn [parse_list]. rewrite Htext.
  destruct (item +:+ String c tail) as [|c0 text] eqn:Heq.
  { destruct item; discriminate. }
  cbv beta iota.
  assert (Ascii.eqb c0 "]" = false ∧ Ascii.eqb c0 "{" = false) as [-> ->].
  { destruct item as [|a item].
    - rewrite app_empty_l in Heq. injection Heq as <- _.
      destruct Hc as [[-> _]|[_ ?]]; done.
    - rewrite app_String in Heq. injection Heq as <- _. split.
      + simpl in Hclose. by destruct (Ascii.eqb a "]").
      + apply Ascii.eqb_neq. intros ->. by apply (Hbrace item). }
  rewrite <- Heq in Hdelim |- *.
  destruct Hdelim as [[Hfc Hfe]|[Hfe Hfc]].
  - rewrite Hfc.
    destruct (Z.ltb_spec (Z.of_nat (len item)) 0) as [?|_]; [lia|].
    destruct (Z.gtb_spec (Z.of_nat (len item)) (find "]" (item +:+ String c tail)))
      as [?|_]; [lia|].
    simpl orb. cbv iota. by rewrite slice_to_app, slice_from_app.
  - rewrite Hfe.
    assert ((find "," (item +:+ String c tail) <? 0)%Z
            || (find "," (item +:+ String c tail) >? Z.of_nat (len item))%Z = true) as ->.
    { apply orb_true_iff. destruct Hfc; [left|right]; lia. }
    by rewrite slice_to_app, slice_from_app.
Qed.

(** X4: in a list context, a scalar item followed by a comma is
    appended, trimmed on both sides, and parsing goes on after the comma,
    provided a closing bracket occurs somewhere later in the text. *)
Theorem X4_list_item_before_comma (fuel : nat) (item tail : string)
    (output : list ConfigValue) :
  lstrip item = item →
  (∀ r, item ≠ String "{" r) →
  index_of "," item = None → index_of "]" item = None →
  index_of "]" tail ≠ None →
  parse_list (S fuel) (item +:+ String "," tail) output =
    parse_list fuel tail (output ++ [Scalar (strip item)]).
Proof. intros. apply parse_list_item_step; auto. Qed.

Lemma X4_list_item_before_comma_witness :
  parse_list 3 ("a " +:+ String "," " ]") [] = Ok (EmptyString, [Scalar "a"]).
Proof.
  etrans; [apply (X4_list_item_before_comma 2 "a " " ]" []);
             [reflexivity | discriminate | reflexivity | reflexivity | discriminate]|].
  reflexivity.
Defined.

(** X5: the closing bracket that ends a scalar item is consumed as a
    delimiter only: the item is appended and the list stays open.  If
    nothing but blanks follows, the list parser raises IndexError. *)
Theorem X5_bracket_after_item_keeps_list_open (fuel : nat) (item tail : string)
    (output : list ConfigValue) :
  item ≠ EmptyString →
  lstrip item = item →
  (∀ r, item ≠ String "{" r) →
  index_of "," item = None → index_of "]" item = None →
  parse_list (S fuel) (item +:+ String "]" tail) output =
    parse_list fuel tail (output ++ [Scalar (strip item)])
  ∧ (lstrip tail = EmptyString →
     parse_list (S (S fuel)) (item +:+ String "]" tail) output = Raise IndexError).
Proof.
  intros Hne Hls Hbrace Hcomma Hclose. split.
  - apply parse_list_item_step; auto.
  - intros Hblank. rewrite parse_list_item_step by auto.
    cbn [parse_list]. by rewrite Hblank.
Qed.

Lemma X5_bracket_after_item_keeps_list_open_witness :
  parse_list 2 ("b" +:+ String "]" " ]") [Scalar "a"] =
    Ok (EmptyString, [Scalar "a"; Scalar "b"])
  ∧ parse_list 2 ("b" +:+ String "]" (chr nl)) [Scalar "a"] = Raise IndexError.
Proof.
  split.
  - etrans; [|reflexivity].
    refine (proj1 (X5_bracket_after_item_keeps_list_open 1 "b" " ]" [Scalar "a"]
                     _ _ _ _ _));
      [discriminate | reflexivity | discriminate | reflexivity | reflexivity].
  - refine (proj2 (X5_bracket_after_item_keeps_list_open 0 "b" (chr nl) [Scalar "a"]
                     _ _ _ _ _) _);
      [discriminate | reflexivity | discriminate | reflexivity | reflexivity
      | reflexivity].
Defined.

End parser_entries.

(** ** The parser on flat texts and on texts without lists *)

Section parser_without_list.
Import PyStr.

(** On a text without brackets and braces each iteration of the dict
    parser works on a strictly shorter text, no nested call is made, and
    only scalars are stored. *)
Lemma parse_dict_flat (n : nat) (s : string) (output : gmap string ConfigValue) :
  index_of "[" s = None → index_of "{" s = None → len s < n →
  map_Forall (λ _ v, ∃ x, v = Scalar x) output →
  ∃ rest output',
    parse_dict n s output = Ok (rest, output')
    ∧ len rest ≤ len s
    ∧ map_Forall (λ _ v, ∃ x, v = Scalar x) output'.
Proof.
  revert s output. induction n as [|n IH]; intros s output Hl Hd Hn Hout; [lia|].
  cbn [parse_dict].
  pose proof (len_lstrip s) as Hlen.
  pose proof (index_of_lstrip_None _ _ Hl) as Hcl.
  pose proof (index_of_lstrip_None _ _ Hd) as Hcd.
  set (cs := lstrip s) in *.
  destruct (Z.leb_spec (find nl cs) 0) as [_|Hnl]; [by exists cs, output|].
  assert (0 < len cs) as Hpos.
  { unfold find in Hnl. destruct (index_of nl cs) as [i|] eqn:Hi; [|lia].
    apply index_of_lt in Hi. lia. }
  assert (find "[" (slice_to cs (find nl cs)) = -1)%Z as ->
    by (apply find_None; unfold slice_to; by apply index_of_take).
  assert (find "{" (slice_to cs (find nl cs)) = -1)%Z as ->
    by (apply find_None; unfold slice_to; by apply index_of_take).
  destruct (Z.gtb_spec (find ":" (slice_to cs (find nl cs))) (-1)) as [_|_];
    [|by exists cs, output].
  set (rest0 := slice_from cs (find nl cs + 1)).
  assert (len rest0 < len cs) as Hshort.
  { unfold rest0, slice_from, bound. rewrite len_drop.
    destruct (Z.ltb_spec (find nl cs + 1) 0); lia. }
  destruct (IH rest0
              (<[slice_to (slice_to cs (find nl cs))
                   (find ":" (slice_to cs (find nl cs))) :=
                 Scalar (remove dquote (lstrip (slice_from (slice_to cs (find nl cs))
                   (find ":" (slice_to cs (find nl cs)) + 1))))]> output))
    as (rest & output' & -> & Hr & Hscalars).
  - by apply index_of_drop_None.
  - by apply index_of_drop_None.
  - lia.
  - apply map_Forall_insert_2; [by eexists|done].
  - exists rest, output'. split; [done|]. split; [lia|done].
Qed.

(** X6: on a text without an opening bracket or brace the dict parser
    makes no nested call, terminates within as many iterations as the
    text has characters plus one, and raises nothing:
    [parse_model_config] returns a Message, and all its values are
    strings. *)
Theorem X6_flat_text_parses (fs : filesystem) (model_path text : string) :
  fs (path_join model_path "config.pbtxt") = Some text →
  index_of "[" text = None → index_of "{" text = None →
  ∃ message,
    parse_model_config fs (S (len text)) model_path = Ok message
    ∧ ∀ key v, message !! key = Some v → ∃ x, v = Scalar x.
Proof.
  intros Hfs Hl Hd.
  destruct (parse_dict_flat (S (len text)) text ∅ Hl Hd)
    as (rest & output & Hp & _ & Hscalars); [lia|apply map_Forall_empty|].
  exists output. unfold parse_model_config. rewrite Hfs, Hp. split; [done|].
  intros key v Hkey. by apply (Hscalars key v).
Qed.

Lemma X6_flat_text_parses_witness :
  ∃ message,
    parse_model_config (Scenario.fs_with Scenario.unterminated_last_line)
      (S (len Scenario.unterminated_last_line)) "/models/m1" = Ok message
    ∧ ∀ key v, message !! key = Some v → ∃ x, v = Scalar x.
Proof.
  apply (X6_flat_text_parses (Scenario.fs_with Scenario.unterminated_last_line)
           "/models/m1" Scenario.unterminated_last_line); reflexivity.
Defined.

(** The dict parser enters the list parser only at an opening square
    bracket: on a text without one it raises nothing in this model, and
    hands back a text without one. *)
Lemma parse_dict_without_list (n : nat) (s : string)
    (o : gmap string ConfigValue) :
  index_of "[" s = None →
  match parse_dict n s o with
  | Ok (rest, _) => index_of "[" rest = None
  | Raise _ => False
  | OutOfFuel => True
  end.
Proof.
  revert s o. induction n as [|n IH]; intros s o Hs; [done|].
  cbn [parse_dict].
  pose proof (index_of_lstrip_None _ _ Hs) as Hcs.
  set (cs := lstrip s) in *.
  destruct (find nl cs <=? 0)%Z; [done|].
  assert (find "[" (slice_to cs (find nl cs)) = -1)%Z as ->
    by (apply find_None; unfold slice_to; by apply index_of_take).
  destruct (find ":" (slice_to cs (find nl cs)) >? -1)%Z.
  { apply IH. by apply index_of_drop_None. }
  change (-1 >? -1)%Z with false. cbv iota.
  destruct (find "{" (slice_to cs (find nl cs)) >? -1)%Z; [|done].
  pose proof (IH (slice_from cs (find "{" (slice_to cs (find nl cs)) + 1)) ∅
                (index_of_drop_None _ _ _ Hcs)) as Hnested.
  destruct (parse_dict n (slice_from cs (find "{" (slice_to cs (find nl cs)) + 1)) ∅)
    as [[rest next_dict]| |]; [|done..].
  cbn [mbind outcome_bind]. apply IH. by apply index_of_lstrip_None.
Qed.

(** X7: an IndexError that comes out of [parse_model_config] comes from
    the list parser: the text of the file holds an opening square
    bracket. *)
Theorem X7_index_error_needs_list (fs : filesystem) (fuel : nat)
    (model_path : string) :
  parse_model_config fs fuel model_path = Raise IndexError →
  ∃ text, fs (path_join model_path "config.pbtxt") = Some text
          ∧ index_of "[" text ≠ None.
Proof.
  unfold parse_model_config.
  destruct (fs (path_join model_path "config.pbtxt")) as [text|] eqn:Hfs; [|done].
  intros Hp. exists text. split; [done|]. intros Hnone.
  pose proof (parse_dict_without_list fuel text ∅ Hnone) as Hd.
  by destruct (parse_dict fuel text ∅) as [[rest output]| |].
Qed.

Lemma X7_index_error_needs_list_witness :
  ∃ text, Scenario.fs_with Scenario.open_list_blank
            (path_join "/models/m1" "config.pbtxt") = Some text
          ∧ index_of "[" text ≠ None.
Proof.
  apply (X7_index_error_needs_list (Scenario.fs_with Scenario.open_list_blank)
           2 "/models/m1").
  reflexivity.
Defined.

End parser_without_list.

(** ** ModelConfig: construction and setters *)

Section model_config_more.
Import ModelConfig.

(** X8: the constructor reads the configuration file and then applies
    the optional [instance_group] and [dynamic_batching] arguments,
    each only when it is truthy: [None] and an empty dict leave the
    parsed field (or its absence) as it is.  The other accessors answer
    from the file, and a failure to read or parse is passed on. *)
Theorem X8_constructor (fs : filesystem) (fuel : nat) (model_path : string)
    (ig db : option ConfigValue) :
  match parse_model_config fs fuel model_path with
  | Ok config =>
      let parsed := {| _model_path := model_path; _config := config |} in
      ∃ c, __init__ fs fuel model_path ig db = Ok c
           ∧ _model_path c = model_path
           ∧ instance_group c =
               match ig with
               | Some v => if truthy v then Ok v else instance_group parsed
               | None => instance_group parsed
               end
           ∧ dynamic_batching c =
               match db with
               | Some v => if truthy v then Ok v else dynamic_batching parsed
               | None => dynamic_batching parsed
               end
           ∧ name c = name parsed
           ∧ platform c = platform parsed
           ∧ max_batch_size c = max_batch_size parsed
  | Raise e => __init__ fs fuel model_path ig db = Raise e
  | OutOfFuel => __init__ fs fuel model_path ig db = OutOfFuel
  end.
Proof.
  unfold __init__.
  destruct (parse_model_config fs fuel model_path) as [config| |]; [|done..].
  simpl. eexists. split; [done|].
  unfold instance_group, dynamic_batching, name, platform, max_batch_size.
  destruct ig as [v|], db as [w|]; try destruct (truthy v); try destruct (truthy w);
    simpl; repeat split;
    repeat (rewrite lookup_insert_ne by done); rewrite ?lookup_insert_eq; done.
Qed.

(** X9: the setters compose as dictionary assignments: a second
    [set_instance_group] replaces the first, the two setters commute,
    and neither changes what the accessors of the other fields return. *)
Theorem X9_setters_compose (c : ModelConfig.t) (v w : ConfigValue) :
  set_instance_group (set_instance_group c v) w = set_instance_group c w
  ∧ set_dynamic_batching (set_dynamic_batching c v) w = set_dynamic_batching c w
  ∧ set_dynamic_batching (set_instance_group c v) w
    = set_instance_group (set_dynamic_batching c w) v
  ∧ dynamic_batching (set_instance_group c v) = dynamic_batching c
  ∧ instance_group (set_dynamic_batching c v) = instance_group c
  ∧ name (set_instance_group c v) = name c
  ∧ name (set_dynamic_batching c v) = name c
  ∧ platform (set_instance_group c v) = platform c
  ∧ platform (set_dynamic_batching c v) = platform c
  ∧ max_batch_size (set_instance_group c v) = max_batch_size c
  ∧ max_batch_size (set_dynamic_batching c v) = max_batch_size c.
Proof.
  unfold set_instance_group, set_dynamic_batching, instance_group, dynamic_batching,
    name, platform, max_batch_size.
  simpl. rewrite !insert_insert_eq.
  rewrite (insert_insert_ne _ "dynamic_batching" "instance_group") by done.
  repeat split; by rewrite lookup_insert_ne.
Qed.

End model_config_more.

(** ** ResultComparator: indices and averages *)

Section comparator_more.
Context {K : Type} `{RecordType K}.
Import ResultComparator.

Lemma index_types_prefix (types : list K) (n : nat) (k : K) (i : nat) :
  n ≤ length types →
  foldl (λ (m : gmap K nat) i, match types !! i with
                                | Some k => <[k := i]> m
                                | None => m
                                end) ∅ (seq 0 n) !! k = Some i
  ↔ i < n ∧ types !! i = Some k ∧ ∀ j, i < j → j < n → types !! j ≠ Some k.
Proof.
  induction n as [|n IH]; intros Hn.
  - simpl. rewrite lookup_empty. split; [done|]. intros [? _]. lia.
  - rewrite seq_S, foldl_snoc. simpl.
    destruct (lookup_lt_is_Some_2 types n) as [kn Hkn]; [lia|]. rewrite Hkn.
    destruct (decide (kn = k)) as [->|Hne].
    + rewrite lookup_insert_eq. split.
      * intros [= <-]. split; [lia|]. split; [done|]. intros j ??. lia.
      * intros (Hi & Hik & Hlast). f_equal.
        destruct (decide (i = n)) as [|Hin]; [done|].
        exfalso. apply (Hlast n); [lia|lia|done].
    + rewrite lookup_insert_ne by done. rewrite IH by lia. split.
      * intros (Hi & Hik & Hlast). split; [lia|]. split; [done|].
        intros j Hij Hj. destruct (decide (j = n)) as [->|]; [congruence|].
        apply Hlast; lia.
      * intros (Hi & Hik & Hlast).
        assert (i ≠ n) by (intros ->; congruence).
        split; [lia|]. split; [done|]. intros j ??. apply Hlast; lia.
Qed.

(** X10: the index built by the constructor maps a kind to its last
    position in the list of metric types, and kinds that are not listed
    are not indexed. *)
Theorem X10_index_types (types : list K) (k : K) (i : nat) :
  (index_types types !! k = Some i
   ↔ types !! i = Some k ∧ ∀ j, i < j → types !! j ≠ Some k)
  ∧ (index_types types !! k = None ↔ k ∉ types).
Proof.
  assert (∀ i, index_types types !! k = Some i
     ↔ types !! i = Some k ∧ ∀ j, i < j → types !! j ≠ Some k) as Hsome.
  { intros i'. unfold index_types. rewrite index_types_prefix by done. split.
    - intros (_ & Hik & Hlast). split; [done|]. intros j Hij Hjk.
      apply (Hlast j); [done| |done]. by apply lookup_lt_Some in Hjk.
    - intros [Hik Hlast]. split; [by apply lookup_lt_Some in Hik|].
      split; [done|]. intros j ? _. by apply Hlast. }
  split; [apply Hsome|]. split.
  - intros Hnone [j Hj]%list_elem_of_lookup.
    assert (∃ i', types !! i' = Some k ∧ ∀ j', i' < j' → types !! j' ≠ Some k)
      as (i' & Hi').
    { clear Hsome Hnone. revert j Hj.
      induction types as [|a types IH] using rev_ind; intros j Hj; [done|].
      destruct (decide (a = k)) as [->|Hne].
      - exists (length types). split; [by rewrite lookup_app_r, Nat.sub_diag|].
        intros j' Hj' Hjk. apply lookup_lt_Some in Hjk.
        rewrite length_app in Hjk. simpl in Hjk. lia.
      - assert (j < length types) as Hlt.
        { apply lookup_lt_Some in Hj as Hj'. rewrite length_app in Hj'. simpl in Hj'.
          destruct (decide (j = length types)) as [->|]; [|lia].
          rewrite lookup_app_r, Nat.sub_diag in Hj by lia. simpl in Hj. congruence. }
        rewrite lookup_app_l in Hj by done.
        destruct (IH j Hj) as (i' & Hi' & Hlast). exists i'. split.
        + rewrite lookup_app_l; [done|]. by apply lookup_lt_Some in Hi'.
        + intros j' Hj' Hjk.
          destruct (decide (j' < length types)) as [Hlt'|Hge].
          * rewrite lookup_app_l in Hjk by done. by apply (Hlast j').
          * apply lookup_lt_Some in Hjk as Hb. rewrite length_app in Hb. simpl in Hb.
            replace j' with (length types) in Hjk by lia.
            rewrite lookup_app_r, Nat.sub_diag in Hjk by lia. simpl in Hjk. congruence. }
    apply Hsome in Hi'. congruence.
  - intros Hnot. destruct (index_types types !! k) as [i'|] eqn:Hi'; [|done].
    destruct (proj1 (Hsome i') eq_refl) as [Hik _]. exfalso. apply Hnot.
    apply list_elem_of_lookup. by exists i'.
Qed.

Lemma mapM_ext_Ok {A B : Type} (f : A → outcome B) (g : A → B) (l : list A) :
  (∀ x, x ∈ l → f x = Ok (g x)) → mapM f l = Ok (g <$> l).
Proof.
  induction l as [|x l IH]; intros Hf; [done|]. simpl.
  rewrite Hf by (by left). simpl. rewrite IH; [done|].
  intros y Hy. apply Hf. by right.
Qed.

Lemma mapM_raise {A B : Type} (f : A → outcome B) (e : exn) (l : list A) :
  (∀ x, x ∈ l → (∃ y, f x = Ok y) ∨ f x = Raise e) →
  (∃ x, x ∈ l ∧ f x = Raise e) →
  mapM f l = Raise e.
Proof.
  induction l as [|x l IH]; intros Hall (x' & Hin & Hx').
  - by apply elem_of_nil in Hin.
  - simpl. destruct (Hall x) as [[y Hy]|Hr]; [by left| |by rewrite Hr].
    rewrite Hy. simpl. rewrite IH; [done| |].
    + intros z Hz. apply Hall. by right.
    + apply elem_of_cons in Hin as [->|Hin]; [congruence|]. by exists x'.
Qed.

Lemma mapM_cases {A B : Type} (f : A → outcome B) (e : exn) (l : list A) :
  (∀ x, x ∈ l → (∃ y, f x = Ok y) ∨ f x = Raise e) →
  (∃ ys, mapM f l = Ok ys) ∨ mapM f l = Raise e.
Proof.
  induction l as [|x l IH]; intros Hall; [left; by eexists|]. simpl.
  destruct (Hall x) as [[y Hy]|Hr]; [by left| |right; by rewrite Hr].
  rewrite Hy. simpl.
  destruct IH as [[ys Hys]|Hr]; [intros z Hz; apply Hall; by right| |].
  - left. rewrite Hys. by eexists.
  - right. by rewrite Hr.
Qed.

(** Visiting a list by position is visiting its items. *)
Lemma mapM_by_position {A B : Type} (g : A → outcome B) (pre l : list A) :
  mapM (λ j, r ← list_getitem (pre ++ l) j; g r) (seq (length pre) (length l))
  = mapM g l.
Proof.
  revert pre. induction l as [|x l IH]; intros pre; [done|]. simpl.
  assert (list_getitem (pre ++ x :: l) (length pre) = Ok x) as ->.
  { unfold list_getitem. by rewrite list_lookup_middle. }
  simpl. destruct (g x) as [y| |]; simpl; [|done..].
  specialize (IH (pre ++ [x])). rewrite <- app_assoc, length_app in IH. simpl in IH.
  rewrite Nat.add_1_r in IH. by rewrite IH.
Qed.

Lemma mapM_column (i : nat) (rows : list row) :
  Forall (λ r : row, i < length r) rows →
  mapM (λ r : row, list_getitem r i) rows = Ok (column i rows).
Proof.
  induction 1 as [|r rows Hr _ IH]; [done|].
  destruct (lookup_lt_is_Some_2 r i Hr) as [x Hx].
  assert (list_getitem r i = Ok x) as Hg by (unfold list_getitem; by rewrite Hx).
  assert (column i (r :: rows) = x :: column i rows) as ->
    by (unfold column; simpl; by rewrite Hx).
  cbn [mapM]. rewrite Hg, IH. done.
Qed.

(** X11: on a non-empty list of rows, each at least as long as the
    first, [_average_list] returns one mean per column of the first row:
    the sum of the column over the number of rows.  What longer rows hold
    beyond the first row's length is ignored. *)
Theorem X11_average_of_rows (row0 : row) (rest : list row) :
  Forall (λ r : row, length row0 ≤ length r) rest →
  _average_list (row0 :: rest)
  = Ok (column_mean (row0 :: rest) <$> seq 0 (length row0)).
Proof.
  intros Hrest. unfold _average_list. apply mapM_ext_Ok.
  intros i Hi%elem_of_seq.
  rewrite (mapM_by_position (λ r : row, py_getitem r i) [] (row0 :: rest)).
  simpl py_getitem. rewrite mapM_column; [done|].
  constructor; [lia|]. eapply Forall_impl; [exact Hrest|]. simpl. lia.
Qed.

Lemma X11_average_of_rows_witness :
  _average_list [[1; 3]; [3; 5; 100]]%Q
  = Ok (column_mean [[1; 3]; [3; 5; 100]]%Q <$> [0; 1]).
Proof.
  apply (X11_average_of_rows [1; 3]%Q [[3; 5; 100]%Q]).
  constructor; [simpl; lia|constructor].
Defined.

(** X12: a row shorter than the first row makes [_average_list] raise
    IndexError. *)
Theorem X12_short_row (row0 : row) (rest : list row) (r : row) :
  r ∈ rest → length r < length row0 →
  _average_list (row0 :: rest) = Raise IndexError.
Proof.
  intros Hin Hlen. unfold _average_list.
  assert (∀ i, mapM (λ j, r ← list_getitem (row0 :: rest) j; py_getitem r i)
                 (seq 0 (length (row0 :: rest)))
               = mapM (λ r : row, list_getitem r i) (row0 :: rest)) as Hcol
    by (intros i; exact (mapM_by_position (λ r : row, py_getitem r i) [] (row0 :: rest))).
  assert (∀ i (x : list Q), (∃ y, list_getitem x i = Ok y) ∨ list_getitem x i = Raise IndexError)
    as Hget.
  { intros i x. unfold list_getitem. destruct (x !! i); [left; by eexists|by right]. }
  apply mapM_raise.
  - intros i _. rewrite Hcol.
    destruct (mapM_cases (λ r : row, list_getitem r i) IndexError (row0 :: rest))
      as [[ys ->] | ->]; [intros x _; apply Hget| |by right].
    left. by eexists.
  - exists (length r). split; [apply elem_of_seq; simpl; lia|]. rewrite Hcol.
    rewrite (mapM_raise _ IndexError); [done|intros x _; apply Hget|].
    exists r. split; [by right|]. unfold list_getitem.
    by rewrite lookup_ge_None_2.
Qed.

Lemma X12_short_row_witness :
  _average_list [[1; 3]; [3]]%Q = Raise IndexError.
Proof.
  apply (X12_short_row [1; 3]%Q [[3]%Q] [3]%Q); [by left | simpl; lia].
Defined.

End comparator_more.

(** ** ResultComparator: what a comparison depends on *)

Section comparator_order.
Import ResultComparator.

Lemma threshold_test_values (factor : Q) (avg1 avg2 : list Q) (idx : nat) (x y : Q) :
  avg1 !! idx = Some x → avg2 !! idx = Some y →
  threshold_test factor avg1 avg2 idx =
    Ok (if Qltb (factor * x) (x - y) then Some 1%Z
        else if Qltb (x - y) (- (factor * x)) then Some (-1)%Z else None).
Proof.
  intros Hx Hy. unfold threshold_test, list_getitem. rewrite Hx, Hy. simpl.
  by repeat case_match.
Qed.

Lemma threshold_test_inv (factor : Q) (avg1 avg2 : list Q) (idx : nat) decided :
  threshold_test factor avg1 avg2 idx = Ok decided →
  ∃ x y, avg1 !! idx = Some x ∧ avg2 !! idx = Some y.
Proof.
  unfold threshold_test, list_getitem.
  destruct (avg1 !! idx) as [x|]; [|done]. destruct (avg2 !! idx) as [y|]; [|done].
  intros _. by exists x, y.
Qed.

(** X13: a result whose first GPU-specific measurement holds at least
    one GPU cannot be averaged: the view returned by [values()] is
    subscripted, which raises TypeError, and so does any comparison that
    involves the result. *)
Theorem X13_gpu_measurement_raises {K : Type} `{RecordType K} {R : Type} `{Measured R}
    (self : t) (r other : R) (m : gpu_measurement)
    (gpu_measurements : list gpu_measurement) (non_gpu_measurements : list row) :
  get_measurements r = (m :: gpu_measurements, non_gpu_measurements) →
  m ≠ [] →
  _average_measurements r = Raise TypeError
  ∧ __call__ self r other = Raise TypeError
  ∧ ((∃ avgs, _average_measurements other = Ok avgs) →
     __call__ self other r = Raise TypeError).
Proof.
  intros Hr Hm.
  assert (_average_measurements r = Raise TypeError) as Havg.
  { unfold _average_measurements. rewrite Hr.
    destruct m as [|[gpu values0] m]; [done|]. reflexivity. }
  split; [done|]. split.
  - unfold __call__. by rewrite Havg.
  - intros [[g h] Ho]. unfold __call__. by rewrite Ho, Havg.
Qed.

Lemma X13_gpu_measurement_raises_witness :
  __call__ Scenario.by_gpu_kind Scenario.gpu_a Scenario.host_a = Raise TypeError.
Proof.
  refine (proj1 (proj2 (X13_gpu_measurement_raises Scenario.by_gpu_kind
                          Scenario.gpu_a Scenario.host_a
                          [("GPU-0", [20%Q])] [] [[10%Q]] _ _)));
    [reflexivity | discriminate].
Defined.

(** X14: averaging never yields a GPU average.  Whenever
    [_average_measurements] returns, the row of GPU averages is empty
    and the first GPU-specific measurement, if there is one, holds no
    GPU; the other row is what [_average_list] makes of the non-GPU
    measurements. *)
Theorem X14_gpu_average_is_empty {R : Type} `{Measured R}
    (r : R) (avg_gpu avg_non_gpu : list Q) :
  _average_measurements r = Ok (avg_gpu, avg_non_gpu) →
  avg_gpu = []
  ∧ _average_list (get_measurements r).2 = Ok avg_non_gpu
  ∧ ∀ m, head (get_measurements r).1 = Some m → m = [].
Proof.
  unfold _average_measurements.
  destruct (get_measurements r) as [gpu_measurements non_gpu_measurements].
  destruct gpu_measurements as [|m gpu_measurements].
  - simpl. destruct (_average_list non_gpu_measurements); [|done..].
    by intros [= <- <-].
  - destruct m as [|[gpu values0] m]; [|done].
    simpl. destruct (_average_list non_gpu_measurements); [|done..].
    intros [= <- <-]. split_and!; [done..|]. by intros m [= <-].
Qed.

Lemma X14_gpu_average_is_empty_witness :
  _average_list [[3%Q]] = Ok [3 * 1 / 1]%Q
  ∧ ∀ m, head [([] : gpu_measurement); [("GPU-0", [5%Q])]] = Some m → m = [].
Proof.
  refine (proj2 (X14_gpu_average_is_empty Scenario.late_gpu [] [3 * 1 / 1]%Q _)).
  reflexivity.
Defined.

(** X15: the first priority that decides settles the comparison.
    Priorities that stay within the threshold are passed over; if all do,
    the answer is 0; and what follows the deciding priority is not looked
    at, so that a kind unknown to the comparator raises nothing there. *)
Theorem X15_first_decisive_priority {K : Type} `{RecordType K}
    (self : t) (undecided : list K)
    (gpu1 host1 gpu2 host2 : list Q) :
  Forall (λ p, ∃ idx, _gpu_type_to_idx self !! p = Some idx
                      ∧ threshold_test (_comparison_threshold_factor self)
                          host1 host2 idx = Ok None) undecided →
  priority_loop self undecided gpu1 host1 gpu2 host2 = Ok 0%Z
  ∧ ∀ p idx r rest,
      _gpu_type_to_idx self !! p = Some idx →
      threshold_test (_comparison_threshold_factor self) host1 host2 idx = Ok (Some r) →
      priority_loop self (undecided ++ p :: rest) gpu1 host1 gpu2 host2 = Ok r.
Proof.
  induction 1 as [|q undecided (idx & Hq & Hnone) _ [IH0 IH]]; split; try done.
  - intros p idx r rest Hp Hr. simpl. by rewrite Hp, Hr.
  - simpl. by rewrite Hq, Hnone.
  - intros p idx' r rest Hp Hr. simpl. rewrite Hq, Hnone. simpl. by eapply IH.
Qed.

Lemma X15_first_decisive_priority_witness :
  priority_loop (__init__ ["g0"; "g1"] [] [] 1 None)
    (["g0"] ++ "g1" :: ["unknown"]) [] [100; 5]%Q [] [100; 7]%Q = Ok (-1)%Z.
Proof.
  refine (proj2 (X15_first_decisive_priority (__init__ ["g0"; "g1"] [] [] 1 None)
                   ["g0"] [] [100; 5]%Q [] [100; 7]%Q _) "g1" 1 (-1)%Z ["unknown"] _ _).
  - constructor; [|constructor]. exists 0. split; reflexivity.
  - reflexivity.
  - reflexivity.
Defined.

End comparator_order.

(** ** ResultComparator and RunResult: the order they induce *)

Section induced_order.
Import ResultComparator.

Lemma Qltb_false (x y : Q) : Qltb x y = false → (y <= x)%Q.
Proof.
  intros Hf. apply Qnot_lt_le. intros Hlt%Qltb_lt. congruence.
Qed.

Lemma Qmult_le_mono_nonneg (t x y : Q) : (0 <= t)%Q → (x <= y)%Q → (t * x <= t * y)%Q.
Proof.
  intros Ht Hxy. rewrite (Qmult_comm t x), (Qmult_comm t y).
  by apply Qmult_le_compat_r.
Qed.

Lemma priority_loop_win_reversed {K : Type} `{RecordType K} (self : t)
    (priorities : list K) (gpu1 host1 gpu2 host2 : list Q) :
  (0 <= _comparison_threshold_factor self)%Q →
  Forall (λ x, 0 <= x)%Q host1 → Forall (λ x, 0 <= x)%Q host2 →
  priority_loop self priorities gpu1 host1 gpu2 host2 = Ok 1%Z →
  priority_loop self priorities gpu2 host2 gpu1 host1 = Ok (-1)%Z.
Proof.
  intros Ht Hpos1 Hpos2. set (T := _comparison_threshold_factor self) in *.
  induction priorities as [|p rest IH]; [done|]. simpl. fold T.
  destruct (_gpu_type_to_idx self !! p) as [idx|]; [|done].
  destruct (threshold_test T host1 host2 idx) as [decided| |] eqn:Htest; [|done..].
  destruct (threshold_test_inv _ _ _ _ _ Htest) as (x & y & Hx & Hy).
  rewrite (threshold_test_values _ _ _ _ _ _ Hx Hy) in Htest.
  rewrite (threshold_test_values _ _ _ _ _ _ Hy Hx).
  assert (0 <= x)%Q as Hx0
    by (eapply (proj1 (Forall_forall _ _) Hpos1), list_elem_of_lookup_2, Hx).
  assert (0 <= y)%Q as Hy0
    by (eapply (proj1 (Forall_forall _ _) Hpos2), list_elem_of_lookup_2, Hy).
  pose proof (Qmult_le_0_compat _ _ Ht Hx0) as HTx.
  pose proof (Qmult_le_0_compat _ _ Ht Hy0) as HTy.
  injection Htest as <-.
  destruct (Qltb (T * x) (x - y)) eqn:E1; simpl.
  - intros _. apply Qltb_lt in E1.
    assert (y <= x)%Q as Hyx by lra.
    pose proof (Qmult_le_mono_nonneg T y x Ht Hyx) as Hmono.
    rewrite (Qltb_ge (T * y) (y - x)) by lra.
    assert (Qltb (y - x) (- (T * y)) = true) as -> by (apply Qltb_lt; lra).
    done.
  - apply Qltb_false in E1.
    destruct (Qltb (x - y) (- (T * x))) eqn:E2; simpl; [done|].
    apply Qltb_false in E2. intros Hrest.
    assert (Qltb (T * y) (y - x) = false) as ->.
    { apply Qltb_ge. destruct (Qlt_le_dec x y) as [Hlt|Hle]; [|lra].
      pose proof (Qmult_le_mono_nonneg T x y Ht (Qlt_le_weak _ _ Hlt)). lra. }
    destruct (Qltb (y - x) (- (T * y))); simpl; [done|]. by apply IH.
Qed.

(** X16: with a non-negative threshold factor and non-negative
    averages, a result that wins a comparison loses the reversed one:
    if [compare(a, b)] is 1 then [compare(b, a)] is -1. *)
Theorem X16_win_is_seen_from_both_sides {K : Type} `{RecordType K}
    {R : Type} `{Measured R} (self : t) (a b : R)
    (gpu_a host_a gpu_b host_b : list Q) :
  (0 <= _comparison_threshold_factor self)%Q →
  _average_measurements a = Ok (gpu_a, host_a) →
  _average_measurements b = Ok (gpu_b, host_b) →
  Forall (λ x, 0 <= x)%Q host_a → Forall (λ x, 0 <= x)%Q host_b →
  __call__ self a b = Ok 1%Z →
  __call__ self b a = Ok (-1)%Z.
Proof.
  intros Ht Ha Hb Hpa Hpb. unfold __call__. rewrite Ha, Hb. simpl.
  by apply priority_loop_win_reversed.
Qed.

Lemma X16_win_is_seen_from_both_sides_witness :
  __call__ Scenario.by_gpu_kind
    (Scenario.result_of Scenario.by_gpu_kind [] [[10%Q]])
    (Scenario.result_of Scenario.by_gpu_kind [] [[20%Q]]) = Ok (-1)%Z.
Proof.
  apply (X16_win_is_seen_from_both_sides Scenario.by_gpu_kind
           (Scenario.result_of Scenario.by_gpu_kind [] [[20%Q]])
           (Scenario.result_of Scenario.by_gpu_kind [] [[10%Q]])
           [] [20 * 1 / 1]%Q [] [10 * 1 / 1]%Q).
  - vm_compute. discriminate.
  - reflexivity.
  - reflexivity.
  - constructor; [vm_compute; discriminate|constructor].
  - constructor; [vm_compute; discriminate|constructor].
  - reflexivity.
Defined.

Lemma threshold_test_range (factor : Q) (avg1 avg2 : list Q) (idx : nat) (r : Z) :
  threshold_test factor avg1 avg2 idx = Ok (Some r) → r = 1%Z ∨ r = (-1)%Z.
Proof.
  intros Htest. destruct (threshold_test_inv _ _ _ _ _ Htest) as (x & y & Hx & Hy).
  rewrite (threshold_test_values _ _ _ _ _ _ Hx Hy) in Htest.
  destruct (Qltb (factor * x) (x - y)); [left; congruence|].
  destruct (Qltb (x - y) (- (factor * x))); [right; congruence|done].
Qed.

Lemma priority_loop_range {K : Type} `{RecordType K} (self : t)
    (priorities : list K) (gpu1 host1 gpu2 host2 : list Q) :
  match priority_loop self priorities gpu1 host1 gpu2 host2 with
  | Ok c => c = (-1)%Z ∨ c = 0%Z ∨ c = 1%Z
  | Raise _ => True
  | OutOfFuel => False
  end.
Proof.
  induction priorities as [|p rest IH]; simpl; [auto|].
  destruct (_gpu_type_to_idx self !! p) as [idx|]; [|done].
  destruct (threshold_test _ host1 host2 idx) as [[r|]| |] eqn:Htest; simpl; try done.
  - apply threshold_test_range in Htest. destruct Htest as [-> | ->]; auto.
  - revert Htest. unfold threshold_test, list_getitem.
    destruct (host1 !! idx); simpl; [|done].
    destruct (host2 !! idx); simpl; [|done].
    repeat case_match; done.
Qed.

Lemma call_range {K : Type} `{RecordType K} {R : Type} `{Measured R}
    (self : t) (a b : R) :
  match __call__ self a b with
  | Ok c => c = (-1)%Z ∨ c = 0%Z ∨ c = 1%Z
  | Raise _ => True
  | OutOfFuel => False
  end.
Proof.
  unfold __call__.
  pose proof (_average_measurements_finished a) as Ha.
  pose proof (_average_measurements_finished b) as Hb.
  destruct (_average_measurements a) as [[ga ha]| |]; simpl; [|done..].
  destruct (_average_measurements b) as [[gb hb]| |]; simpl; [|done..].
  apply priority_loop_range.
Qed.

(** X17: the order on results is the comparator's answer read three
    ways.  The comparator answers -1, 0 or 1 and nothing else; [>] holds
    when it answers 1, [==] when it answers 0, and the [<] that
    [total_ordering] fills in when it answers -1, so that exactly one of
    the three holds; an exception raised by the comparator comes out of
    each operator. *)
Theorem X17_derived_order {K : Type} `{RecordType K} (self other : RunResult.t) :
  match __call__ (RunResult._comparator self) self other with
  | Ok c =>
      (c = (-1)%Z ∨ c = 0%Z ∨ c = 1%Z)
      ∧ RunResult.__gt__ self other = Ok (c =? 1)%Z
      ∧ RunResult.__eq__ self other = Ok (c =? 0)%Z
      ∧ RunResult.__lt__ self other = Ok (c =? -1)%Z
  | Raise e =>
      RunResult.__gt__ self other = Raise e
      ∧ RunResult.__eq__ self other = Raise e
      ∧ RunResult.__lt__ self other = Raise e
  | OutOfFuel => False
  end.
Proof.
  pose proof (call_range (RunResult._comparator self) self other) as Hrange.
  unfold RunResult.__lt__, RunResult.__ne__, RunResult.__gt__, RunResult.__eq__.
  destruct (__call__ (RunResult._comparator self) self other) as [c|e|]; simpl; [|done..].
  split; [done|]. by destruct Hrange as [->|[->| ->]].
Qed.



End induced_order.

(** ** The heap queue keeps its items *)

Section heap_items.
Context {A : Type}.
Variable lt : A → A → outcome bool.

Local Arguments Nat.div : simpl never.
Local Arguments Nat.mul : simpl never.

Lemma insert_swap_head (l : list A) (j : nat) (x p : A) :
  l !! j = Some p → p :: <[j := x]> l ≡ₚ x :: l.
Proof.
  revert j. induction l as [|a l IH]; intros [|j] Hj; simplify_eq/=.
  - apply perm_swap.
  - rewrite (perm_swap a p), (IH j Hj). apply perm_swap.
Qed.

Lemma insert_swap_head_lt (l : list A) (i : nat) (x p : A) :
  i < length l → x :: <[i := p]> l ≡ₚ p :: <[i := x]> l.
Proof.
  revert i. induction l as [|a l IH]; intros [|i] Hi; simpl in *; try lia.
  - apply perm_swap.
  - rewrite (perm_swap a x), (IH i) by lia. apply perm_swap.
Qed.

(** Writing [p], read at position [j], to position [i] and then [x] to
    position [j] moves the items around without losing any. *)
Lemma insert_swap (l : list A) (i j : nat) (x p : A) :
  l !! j = Some p → i ≠ j → i < length l →
  <[j := x]> (<[i := p]> l) ≡ₚ <[i := x]> l.
Proof.
  revert i j. induction l as [|a l IH]; intros [|i] [|j] Hj Hij Hi;
    simplify_eq/=; try lia.
  - by apply insert_swap_head.
  - apply insert_swap_head_lt. lia.
  - f_equiv. apply IH; [done|lia|lia].
Qed.

Lemma _siftdown_loop_items (fuel : nat) (heap heap' : list A) (newitem : A)
    (startpos pos : nat) :
  pos < length heap →
  heapq._siftdown_loop lt fuel heap newitem startpos pos = Ok heap' →
  heap' ≡ₚ <[pos := newitem]> heap.
Proof.
  revert heap pos. induction fuel as [|fuel IH]; intros heap pos Hpos; simpl.
  - destruct (startpos <? pos); [done|]. by intros [= <-].
  - destruct (Nat.ltb_spec startpos pos) as [Hlt|_]; [|by intros [= <-]].
    unfold list_getitem.
    destruct (heap !! ((pos - 1) / 2)) as [parent|] eqn:Hparent; simpl; [|done].
    destruct (lt newitem parent) as [[|]| |]; simpl; try done; [|by intros [= <-]].
    intros Hrec.
    assert ((pos - 1) / 2 < pos) as Hpp.
    { apply Nat.le_lt_trans with (pos - 1); [apply Nat.Div0.div_le_upper_bound; lia|lia]. }
    apply IH in Hrec; [|rewrite length_insert; lia].
    rewrite Hrec. apply insert_swap; [done|lia|done].
Qed.

Lemma _siftdown_items (heap heap' : list A) (startpos pos : nat) :
  heapq._siftdown lt heap startpos pos = Ok heap' → heap' ≡ₚ heap.
Proof.
  unfold heapq._siftdown, list_getitem.
  destruct (heap !! pos) as [newitem|] eqn:Hpos; simpl; [|done].
  intros Hloop. apply _siftdown_loop_items in Hloop;
    [|by apply lookup_lt_Some in Hpos].
  by rewrite Hloop, list_insert_id.
Qed.

Lemma _siftup_loop_items (fuel : nat) (heap heap' : list A)
    (endpos pos pos' childpos : nat) (newitem : A) :
  pos < length heap → pos < childpos →
  heapq._siftup_loop lt fuel heap endpos pos childpos = Ok (heap', pos') →
  <[pos' := newitem]> heap' ≡ₚ <[pos := newitem]> heap.
Proof.
  revert heap pos childpos.
  induction fuel as [|fuel IH]; intros heap pos childpos Hpos Hchild; simpl.
  - destruct (childpos <? endpos); [done|]. by intros [= <- <-].
  - destruct (childpos <? endpos); [|by intros [= <- <-]].
    set (choice := if childpos + 1 <? endpos then _ else _).
    destruct choice as [right_is_smaller| |]; simpl; [|done..].
    set (child_at := if right_is_smaller then childpos + 1 else childpos).
    assert (pos < child_at) as Hat by (unfold child_at; destruct right_is_smaller; lia).
    unfold list_getitem.
    destruct (heap !! child_at) as [child|] eqn:Hc; simpl; [|done].
    intros Hrec. apply IH in Hrec; [| |lia].
    + rewrite Hrec. apply insert_swap; [done|lia|done].
    + rewrite length_insert. by apply lookup_lt_Some in Hc.
Qed.

Lemma _siftup_items (heap heap' : list A) (pos : nat) :
  heapq._siftup lt heap pos = Ok heap' → heap' ≡ₚ heap.
Proof.
  unfold heapq._siftup, list_getitem.
  destruct (heap !! pos) as [newitem|] eqn:Hpos; simpl; [|done].
  destruct (heapq._siftup_loop lt (length heap) heap (length heap) pos (2 * pos + 1))
    as [[heap1 pos1]| |] eqn:Hloop; simpl; [|done..].
  intros Hdown. apply _siftdown_items in Hdown.
  apply (_siftup_loop_items _ _ _ _ _ _ _ newitem) in Hloop;
    [|by apply lookup_lt_Some in Hpos|lia].
  by rewrite Hdown, Hloop, list_insert_id.
Qed.

Lemma heappush_items (heap heap' : list A) (item : A) :
  heapq.heappush lt heap item = Ok heap' → heap' ≡ₚ item :: heap.
Proof.
  unfold heapq.heappush. intros Hdown. apply _siftdown_items in Hdown.
  by rewrite Hdown, Permutation_app_comm.
Qed.

Lemma heappop_items (heap heap' : list A) (item : A) :
  heapq.heappop lt heap = Ok (item, heap') → item :: heap' ≡ₚ heap.
Proof.
  unfold heapq.heappop.
  destruct (last heap) as [lastelt|] eqn:Hlast; [|done].
  apply last_Some in Hlast as [heap0 ->]. rewrite removelast_last.
  destruct heap0 as [|returnitem heap0]; [by intros [= <- <-]|].
  destruct (heapq._siftup lt (<[0:=lastelt]> (returnitem :: heap0)) 0)
    as [heap1| |] eqn:Hup; simpl; [|done..].
  intros [= <- <-]. apply _siftup_items in Hup. rewrite Hup. simpl.
  f_equiv. apply Permutation_cons_append.
Qed.

End heap_items.

(** ** ResultManager: tables and queue *)

Section manager_tables.
Context {K : Type} `{RecordType K}.
Import ResultManager.

Local Abbreviation manager := (ResultManager.t (K := K)).

Lemma insert_row_inv (self self' : manager) (key : string) (row : list cell) :
  insert_row self key row = Ok self' →
  ∃ table, _result_tables self !! key = Some table
           ∧ self' = with_tables self
               (<[key := ResultTable.insert_row_by_index table row]> (_result_tables self)).
Proof.
  unfold insert_row, table_getitem.
  destruct (_result_tables self !! key) as [table|]; [|done].
  intros [= <-]. by exists table.
Qed.

Lemma same_results_refl (self : manager) : same_results self self.
Proof. by repeat split. Qed.

Lemma same_results_trans (s1 s2 s3 : manager) :
  same_results s1 s2 → same_results s2 s3 → same_results s1 s3.
Proof.
  intros (?&?&?&?) (?&?&?&?). repeat split; congruence.
Qed.

Lemma tables_grow_refl (self : manager) : tables_grow self self 0 0.
Proof.
  repeat split; try done; exists []; by rewrite app_nil_r.
Qed.

Lemma tables_grow_trans (s1 s2 s3 : manager) (a b a' b' : nat) :
  tables_grow s1 s2 a b → tables_grow s2 s3 a' b' →
  tables_grow s1 s3 (a + a') (b + b').
Proof.
  intros ((n1 & Hi1 & Hl1) & (g1 & Hg1 & Hgl1) & Ho1)
         ((n2 & Hi2 & Hl2) & (g2 & Hg2 & Hgl2) & Ho2).
  split; [|split].
  - exists (n1 ++ n2). rewrite Hi2, Hi1, length_app, app_assoc. split; [done|lia].
  - exists (g1 ++ g2). rewrite Hg2, Hg1, length_app, app_assoc. split; [done|lia].
  - intros key ??. by rewrite Ho2, Ho1.
Qed.

Lemma insert_row_inference (self self' : manager) (row : list cell) :
  insert_row self model_inference_table_key row = Ok self' →
  tables_grow self self' 1 0 ∧ same_results self self'.
Proof.
  intros (table & Htable & ->)%insert_row_inv. split; [|by repeat split].
  unfold tables_grow, table_rows. simpl.
  rewrite lookup_insert_eq, lookup_insert_ne, Htable by done.
  split; [by exists [row]|]. split; [exists []; by rewrite app_nil_r|].
  intros key ??. by rewrite lookup_insert_ne.
Qed.

Lemma insert_row_gpu (self self' : manager) (row : list cell) :
  insert_row self model_gpu_table_key row = Ok self' →
  tables_grow self self' 0 1 ∧ same_results self self'.
Proof.
  intros (table & Htable & ->)%insert_row_inv. split; [|by repeat split].
  unfold tables_grow, table_rows. simpl.
  rewrite lookup_insert_eq, lookup_insert_ne, Htable by done.
  split; [exists []; by rewrite app_nil_r|]. split; [by exists [row]|].
  intros key ??. by rewrite lookup_insert_ne.
Qed.

Lemma for_each_grow {X : Type} (body : manager → X → outcome manager)
    (fa fb : X → nat) (xs : list X) (self self' : manager) :
  (∀ s x s', body s x = Ok s' → tables_grow s s' (fa x) (fb x) ∧ same_results s s') →
  for_each body self xs = Ok self' →
  tables_grow self self' (sum_list_with fa xs) (sum_list_with fb xs)
  ∧ same_results self self'.
Proof.
  intros Hbody. revert self.
  induction xs as [|x xs IH]; intros self; simpl.
  - intros [= <-]. split; [apply tables_grow_refl|apply same_results_refl].
  - destruct (body self x) as [s1| |] eqn:Hx; simpl; [|done..].
    intros Hrest. destruct (Hbody _ _ _ Hx) as [Hg1 Hs1].
    destruct (IH _ Hrest) as [Hg2 Hs2].
    split; [by eapply tables_grow_trans|by eapply same_results_trans].
Qed.

Lemma sum_list_with_constant {X : Type} (c : nat) (l : list X) :
  sum_list_with (λ _, c) l = length l * c.
Proof. induction l as [|x l IH]; simpl; [done|]. rewrite IH. lia. Qed.

Lemma sum_by_position {X : Type} (f : X → nat) (l : list X) (n : nat) :
  sum_list_with (λ i, from_option f 0 (l !! i)) (seq 0 n)
  = sum_list_with f (take n l).
Proof.
  induction n as [|n IH]; [done|].
  rewrite seq_S, sum_list_with_app, IH. simpl.
  destruct (l !! n) as [x|] eqn:Hn; simpl.
  - rewrite (take_S_r _ _ _ Hn), sum_list_with_app. simpl. lia.
  - apply lookup_ge_None in Hn. rewrite !take_ge by lia. lia.
Qed.

Lemma compile_result_appends (self self' : manager) (result : RunResult.t) :
  _compile_result self result = Ok self' →
  tables_grow self self' (configs_of result) (gpu_rows_of result)
  ∧ same_results self self'.
Proof.
  unfold _compile_result, configs_of, gpu_rows_of, configs_of. simpl.
  set (gpu_data := RunResult._gpu_specific_measurements result).
  set (non_gpu_rows := RunResult._non_gpu_specific_measurements result).
  set (perf_configs := perf_analyzer_configs (RunResult.get_run_config result)).
  intros Hloop.
  apply (for_each_grow _ (λ _, 1) (λ i, from_option length 0 (gpu_data !! i)))
    in Hloop.
  - rewrite sum_list_with_constant, length_seq, Nat.mul_1_r in Hloop.
    by rewrite sum_by_position in Hloop.
  - clear Hloop self self'. intros s i s'.
    destruct (list_getitem perf_configs i) as [perf_config| |]; simpl; [|done..].
    destruct (config_getitem perf_config "model-name") as [model_name| |]; simpl; [|done..].
    destruct (config_getitem perf_config "batch-size") as [batch_size| |]; simpl; [|done..].
    destruct (config_getitem perf_config "concurrency-range") as [concurrency| |];
      simpl; [|done..].
    destruct (list_getitem non_gpu_rows i) as [non_gpu_row| |]; simpl; [|done..].
    destruct (insert_row s _ _) as [s1| |] eqn:Hrow; simpl; [|done..].
    apply insert_row_inference in Hrow as [Hg1 Hs1].
    unfold list_getitem.
    destruct (gpu_data !! i) as [gpu_datum|]; simpl; [|done].
    intros Hgpus.
    apply (for_each_grow _ (λ _, 0) (λ _, 1)) in Hgpus as [Hg2 Hs2].
    + rewrite sum_list_with_constant, Nat.mul_0_r in Hg2.
      rewrite sum_list_with_constant, Nat.mul_1_r in Hg2.
      split; [|by eapply same_results_trans].
      apply (tables_grow_trans _ _ _ 1 0 0 _ Hg1 Hg2).
    + intros s2 [gpu_id metrics] s3. apply insert_row_gpu.
Qed.

(** X19: compiling a result only appends rows: one row to the
    inference table for each of its perf-analyzer configurations and one
    row to the GPU table for each GPU of the measurement at the same
    position; rows already there are kept in place, the other tables, the
    queue and the results are untouched. *)
Theorem X19_compile_result_appends (self self' : manager) (result : RunResult.t) :
  _compile_result self result = Ok self' →
  tables_grow self self' (configs_of result) (gpu_rows_of result)
  ∧ same_results self self'.
Proof. apply compile_result_appends. Qed.

Lemma complete_result_inv (self self' : manager) :
  complete_result self = Ok self' →
  ∃ ref, _current_run_result self = Some ref
         ∧ _results self' ≡ₚ ref :: _results self
         ∧ objects self' = objects self
         ∧ _current_run_result self' = Some ref
         ∧ _result_tables self' = _result_tables self
         ∧ _result_comparator self' = _result_comparator self.
Proof.
  unfold complete_result, current_run_result.
  destruct (_current_run_result self) as [ref|] eqn:Hcur; [|done]. simpl.
  destruct (heapq.heappush _ _ _) as [results| |] eqn:Hpush; simpl; [|done..].
  intros [= <-]. exists ref. simpl. repeat split; try done.
  by apply heappush_items in Hpush.
Qed.

(** X20: [complete_result] puts the current result into the queue and
    loses none of the queued ones, whatever the comparator answers: the
    new queue is a rearrangement of the old one plus the current result.
    Tables and results are untouched, and the current result stays
    current. *)
Theorem X20_complete_result_queues (self self' : manager) :
  complete_result self = Ok self' →
  ∃ ref, _current_run_result self = Some ref
         ∧ _results self' ≡ₚ ref :: _results self
         ∧ objects self' = objects self
         ∧ _current_run_result self' = Some ref
         ∧ _result_tables self' = _result_tables self
         ∧ _result_comparator self' = _result_comparator self.
Proof. apply complete_result_inv. Qed.

Lemma compile_loop_counts (fuel : nat) (self self' : manager)
    (compiled compiled' : list RunResult.t) :
  compile_loop fuel self compiled = Ok (self', compiled') →
  _results self' = []
  ∧ objects self' = objects self
  ∧ _current_run_result self' = _current_run_result self
  ∧ _result_comparator self' = _result_comparator self
  ∧ tables_grow self self' (queued configs_of self) (queued gpu_rows_of self).
Proof.
  revert self compiled. induction fuel as [|fuel IH]; intros self compiled.
  - simpl. destruct (_results self) eqn:Hres; [|done]. intros [= <- _].
    unfold queued. rewrite Hres. repeat split; try done; apply tables_grow_refl.
  - simpl. destruct (_results self) as [|ref0 refs0] eqn:Hres.
    { intros [= <- _]. unfold queued. rewrite Hres.
      repeat split; try done; apply tables_grow_refl. }
    destruct (heapq.heappop _ _) as [[ref results]| |] eqn:Hpop; simpl; [|done..].
    apply heappop_items in Hpop.
    unfold deref at 1, list_getitem.
    destruct (objects self !! ref) as [r|] eqn:Href; simpl; [|done].
    destruct (_compile_result _ r) as [s1| |] eqn:Hcomp; simpl; [|done..].
    apply compile_result_appends in Hcomp as [Hg1 (Hr1 & Ho1 & Hc1 & Hk1)].
    simpl in Hr1, Ho1, Hc1, Hk1.
    intros Hrec. apply IH in Hrec as (Hr2 & Ho2 & Hc2 & Hk2 & Hg2).
    split; [done|]. split; [congruence|]. split; [congruence|]. split; [congruence|].
    assert (∀ count, queued count self
                     = from_option count 0 (objects self !! ref) + queued count s1)
      as Hsum.
    { intros count. unfold queued. rewrite Hr1, Ho1, Hres, <- Hpop. done. }
    rewrite !Hsum, Href. simpl.
    eapply tables_grow_trans; [|exact Hg2].
    destruct Hg1 as (Hi & Hg & Ho). by repeat split.
Qed.

(** X21: when [compile_results] succeeds the queue is empty, and each
    result that was queued has been compiled exactly once: the inference
    table has gained one row per perf-analyzer configuration of the
    queued results, the GPU table one row per GPU measured with them,
    the rows already there are kept, and the other tables are untouched. *)
Theorem X21_compile_results_counts (self self' : manager) :
  compile_results self = Ok self' →
  _results self' = []
  ∧ objects self' = objects self
  ∧ tables_grow self self' (queued configs_of self) (queued gpu_rows_of self).
Proof.
  unfold compile_results.
  destruct (compile_loop _ self []) as [[s compiled]| |] eqn:Hloop; simpl; [|done..].
  intros [= <-]. apply compile_loop_counts in Hloop as (? & ? & _ & _ & ?). done.
Qed.

(** X22: the comparator is not consulted for the first result: with
    an empty queue [complete_result] succeeds whatever the comparator
    is, and a queue of one result is compiled without any comparison. *)
Theorem X22_first_result_not_compared (self self' : manager) (ref : nat)
    (r : RunResult.t) :
  _current_run_result self = Some ref →
  objects self !! ref = Some r →
  _results self = [] →
  _compile_result (with_results self []) r = Ok self' →
  complete_result self = Ok (with_results self [ref])
  ∧ compile_results (with_results self [ref]) = Ok self'.
Proof.
  intros Hcur Href Hres Hcomp. split.
  - unfold complete_result, current_run_result. by rewrite Hcur, Hres.
  - unfold compile_results. simpl. unfold deref, list_getitem. simpl.
    rewrite Href. simpl.
    change (with_results (with_results self [ref]) []) with (with_results self []).
    rewrite Hcomp. simpl.
    apply compile_result_appends in Hcomp as [_ (Hr & _)]. simpl in Hr.
    destruct (_results self'); [done|discriminate].
Qed.

(** X23: [init_result] succeeds exactly when there is at least one
    table and a comparator has been set.  It then makes a new result
    current, bound to the run configuration and to that comparator and
    without measurements, and leaves the queue, the tables and the
    results made before as they are. *)
Theorem X23_init_result (self : manager) (run_config : RunConfig) :
  ((∃ self', init_result self run_config = Ok self')
   ↔ size (_result_tables self) ≠ 0 ∧ is_Some (_result_comparator self))
  ∧ ∀ self', init_result self run_config = Ok self' →
      ∃ comparator,
        _result_comparator self = Some comparator
        ∧ _current_run_result self' = Some (length (objects self))
        ∧ deref self' (length (objects self))
          = Ok (RunResult.__init__ run_config comparator)
        ∧ (∀ ref r, objects self !! ref = Some r → objects self' !! ref = Some r)
        ∧ _results self' = _results self
        ∧ _result_tables self' = _result_tables self.
Proof.
  unfold init_result. split.
  - case_bool_decide as Hsize.
    + split; [by intros [? ?]|]. by intros [? _].
    + destruct (_result_comparator self) as [comparator|].
      * split; [done|]. intros _. by eexists.
      * split; [by intros [? ?]|]. by intros [_ [? ?]].
  - intros self'. case_bool_decide; [done|].
    destruct (_result_comparator self) as [comparator|]; [|done].
    intros [= <-]. exists comparator. simpl. unfold deref, list_getitem. simpl.
    rewrite list_lookup_middle by done. repeat split; try done.
    intros ref r Href. by apply lookup_app_l_Some.
Qed.

Lemma add_server_data_rows (measurements : gpu_measurement) (default_value : cell)
    (self : manager) (table : ResultTable.t) :
  _result_tables self !! server_only_table_key = Some table →
  add_server_data self measurements default_value =
    Ok (with_tables self
          (<[server_only_table_key :=
               {| ResultTable.title := ResultTable.title table;
                  ResultTable.headers := ResultTable.headers table;
                  ResultTable.rows := ResultTable.rows table ++
                    ((λ '(gpu_id, metrics),
                        [CellStr "triton-server"; CellStr gpu_id;
                         default_value; default_value] ++ (CellNum <$> metrics))
                     <$> measurements) |}]> (_result_tables self))).
Proof.
  revert self table. unfold add_server_data.
  induction measurements as [|[gpu_id metrics] measurements IH]; intros self table Htable.
  - simpl. rewrite app_nil_r. f_equal. destruct self, table. unfold with_tables. simpl in *.
    f_equal. by rewrite insert_id.
  - cbn [for_each].
    set (data_row := [CellStr "triton-server"; CellStr gpu_id; default_value;
                      default_value] ++ (CellNum <$> metrics)).
    assert (insert_row self server_only_table_key data_row
            = Ok (with_tables self
                    (<[server_only_table_key :=
                         ResultTable.insert_row_by_index table data_row]>
                       (_result_tables self)))) as ->
      by (unfold insert_row, table_getitem; by rewrite Htable).
    cbn [mbind outcome_bind].
    rewrite (IH _ (ResultTable.insert_row_by_index table data_row))
      by (simpl; apply lookup_insert_eq).
    unfold with_tables. simpl. rewrite insert_insert_eq.
    by rewrite <- app_assoc.
Qed.

(** X24: [add_server_data] appends one row per GPU of the measurement,
    in its order, to the server-only table: the label [triton-server],
    the GPU id, the default value twice, then the metrics.  Nothing else
    changes.  Without that table it raises KeyError, unless there is
    nothing to add. *)
Theorem X24_add_server_data (self : manager) (measurements : gpu_measurement)
    (default_value : cell) :
  match _result_tables self !! server_only_table_key with
  | Some table =>
      add_server_data self measurements default_value =
        Ok (with_tables self
              (<[server_only_table_key :=
                   {| ResultTable.title := ResultTable.title table;
                      ResultTable.headers := ResultTable.headers table;
                      ResultTable.rows := ResultTable.rows table ++
                        ((λ '(gpu_id, metrics),
                            [CellStr "triton-server"; CellStr gpu_id;
                             default_value; default_value] ++ (CellNum <$> metrics))
                         <$> measurements) |}]> (_result_tables self)))
  | None =>
      add_server_data self measurements default_value =
        match measurements with
        | [] => Ok self
        | _ :: _ => Raise (KeyError server_only_table_key)
        end
  end.
Proof.
  destruct (_result_tables self !! server_only_table_key) as [table|] eqn:Htable.
  - by apply add_server_data_rows.
  - destruct measurements as [|[gpu_id metrics] measurements]; [done|].
    unfold add_server_data. simpl. unfold insert_row, table_getitem. by rewrite Htable.
Qed.

(** X25: a completed result is still the current one, and the queue
    holds the result itself, not a copy: measurements added after
    [complete_result] reach the queued result. *)
Theorem X25_data_after_complete (self s1 s2 : manager) (measurements : row) :
  complete_result self = Ok s1 →
  add_model_non_gpu_data s1 measurements = Ok s2 →
  ∃ ref r,
    _current_run_result self = Some ref
    ∧ objects self !! ref = Some r
    ∧ ref ∈ _results s2
    ∧ objects s2 !! ref = Some (RunResult.add_non_gpu_data r measurements).
Proof.
  intros (ref & Hcur & Hperm & Hobj & Hcur1 & _)%complete_result_inv.
  unfold add_model_non_gpu_data, current_run_result. rewrite Hcur1. simpl.
  unfold deref, list_getitem. rewrite Hobj.
  destruct (objects self !! ref) as [r|] eqn:Href; simpl; [|done].
  intros [= <-]. exists ref, r. simpl. repeat split; try done.
  - rewrite Hperm. by left.
  - rewrite Hobj. apply list_lookup_insert_eq. by apply lookup_lt_Some in Href.
Qed.

End manager_tables.

Lemma X19_compile_result_appends_witness :
  ∃ self',
    ResultManager._compile_result Scenario.accumulating Scenario.one_result
    = Ok self'
    ∧ tables_grow Scenario.accumulating self' 1 2
    ∧ same_results Scenario.accumulating self'.
Proof.
  returns (ResultManager._compile_result Scenario.accumulating Scenario.one_result) E.
  eexists. split; [reflexivity|].
  exact (X19_compile_result_appends Scenario.accumulating _ Scenario.one_result E).
Defined.

Lemma X20_complete_result_queues_witness :
  ∃ self',
    ResultManager.complete_result Scenario.accumulating = Ok self'
    ∧ ∃ ref,
        ResultManager._current_run_result Scenario.accumulating = Some ref
        ∧ ResultManager._results self'
          ≡ₚ ref :: ResultManager._results Scenario.accumulating
        ∧ ResultManager.objects self'
          = ResultManager.objects Scenario.accumulating
        ∧ ResultManager._current_run_result self' = Some ref
        ∧ ResultManager._result_tables self'
          = ResultManager._result_tables Scenario.accumulating
        ∧ ResultManager._result_comparator self'
          = ResultManager._result_comparator Scenario.accumulating.
Proof.
  returns (ResultManager.complete_result Scenario.accumulating) E.
  eexists. split; [reflexivity|].
  exact (X20_complete_result_queues Scenario.accumulating _ E).
Defined.

Lemma X21_compile_results_counts_witness :
  ∃ self',
    ResultManager.compile_results
      (ResultManager.with_results Scenario.accumulating [0]) = Ok self'
    ∧ ResultManager._results self' = []
    ∧ ResultManager.objects self'
      = ResultManager.objects (ResultManager.with_results Scenario.accumulating [0])
    ∧ tables_grow (ResultManager.with_results Scenario.accumulating [0]) self' 1 2.
Proof.
  returns (ResultManager.compile_results
             (ResultManager.with_results Scenario.accumulating [0])) E.
  eexists. split; [reflexivity|].
  exact (X21_compile_results_counts
           (ResultManager.with_results Scenario.accumulating [0]) _ E).
Defined.

Lemma X22_first_result_not_compared_witness :
  ∃ self',
    ResultManager.complete_result Scenario.accumulating
    = Ok (ResultManager.with_results Scenario.accumulating [0])
    ∧ ResultManager.compile_results
        (ResultManager.with_results Scenario.accumulating [0]) = Ok self'.
Proof.
  returns (ResultManager._compile_result
             (ResultManager.with_results Scenario.accumulating [])
             Scenario.one_result) E.
  eexists.
  exact (X22_first_result_not_compared Scenario.accumulating _ 0 Scenario.one_result
           eq_refl eq_refl eq_refl E).
Defined.

Lemma X23_init_result_witness :
  ∃ self',
    ResultManager.init_result (Scenario.ready Scenario.by_gpu_kind)
      Scenario.one_config = Ok self'.
Proof.
  apply (proj2 (proj1 (X23_init_result (Scenario.ready Scenario.by_gpu_kind)
                         Scenario.one_config))).
  split; [vm_compute; discriminate | by eexists].
Defined.

Lemma X25_data_after_complete_witness :
  ∃ s2 ref r,
    ResultManager._current_run_result Scenario.accumulating = Some ref
    ∧ ResultManager.objects Scenario.accumulating !! ref = Some r
    ∧ ref ∈ ResultManager._results s2
    ∧ ResultManager.objects s2 !! ref = Some (RunResult.add_non_gpu_data r [11%Q]).
Proof.
  returns (s1 ← ResultManager.complete_result Scenario.accumulating;
           ResultManager.add_model_non_gpu_data s1 [11%Q]) E.
  apply bind_Ok_inv in E as (s1 & E1 & E2).
  eexists.
  exact (X25_data_after_complete Scenario.accumulating s1 _ [11%Q] E1 E2).
Defined.

(** ** Setting a sweep up, and comparisons that succeed *)

Section setup_and_success.
Import ResultComparator.

(** X26: [create_tables] followed by [set_result_comparator] is all
    that [init_result] needs, whatever the manager held before.  The
    three tables are new: they have no rows, and their headers are the
    fixed identity columns followed by one label per metric kind. *)
Theorem X26_setup_enables_init_result {K : Type} `{RecordType K}
    (self : ResultManager.t) (gpu_specific_metrics non_gpu_specific_metrics : list K)
    (aggregation_tag : string) (comparator : t) (run_config : RunConfig) :
  let made := ResultManager.create_tables self gpu_specific_metrics
                non_gpu_specific_metrics aggregation_tag in
  let label := λ metric, header metric (aggregation_tag +:+ " ") in
  (∃ self', ResultManager.init_result
              (ResultManager.set_result_comparator made comparator) run_config = Ok self')
  ∧ ResultManager.get_server_table made
    = Ok (ResultTable.__init__
            (ResultManager.gpu_specific_headers ++ (label <$> gpu_specific_metrics))
            "Server Only")
  ∧ ResultManager.get_model_tables made
    = Ok (ResultTable.__init__
            (ResultManager.gpu_specific_headers ++ (label <$> gpu_specific_metrics))
            "Models (GPU Metrics)",
          ResultTable.__init__
            (ResultManager.non_gpu_specific_headers ++ (label <$> non_gpu_specific_metrics))
            "Models (Inference)")
  ∧ ResultManager._results made = ResultManager._results self.
Proof.
  intros made label. split; [|split; [|split; [|done]]].
  2:{ unfold ResultManager.get_server_table, ResultManager._get_table, made,
        ResultManager.create_tables, ResultManager._add_result_table. simpl.
      rewrite !lookup_insert_ne by done. by rewrite lookup_insert_eq. }
  2:{ unfold ResultManager.get_model_tables, ResultManager._get_table, made,
        ResultManager.create_tables, ResultManager._add_result_table. simpl.
      rewrite lookup_insert_eq.
      rewrite (lookup_insert_ne _ ResultManager.model_inference_table_key
                 ResultManager.model_gpu_table_key) by done.
      by rewrite lookup_insert_eq. }
  unfold ResultManager.init_result.
  case_bool_decide as Hsize; [|by eexists].
  exfalso. apply map_size_empty_inv in Hsize.
  assert (ResultManager._result_tables
            (ResultManager.set_result_comparator made comparator)
            !! ResultManager.model_inference_table_key = None) as Hnone
    by (rewrite Hsize; apply lookup_empty).
  unfold made, ResultManager.create_tables, ResultManager._add_result_table in Hnone.
  simpl in Hnone. by rewrite lookup_insert_eq in Hnone.
Qed.

Lemma priority_loop_succeeds {K : Type} `{RecordType K} (self : t)
    (priorities : list K) (gpu1 host1 gpu2 host2 : list Q) :
  Forall (λ p, ∃ idx, _gpu_type_to_idx self !! p = Some idx
                      ∧ idx < length host1 ∧ idx < length host2) priorities →
  ∃ c, priority_loop self priorities gpu1 host1 gpu2 host2 = Ok c.
Proof.
  induction 1 as [|p rest (idx & Hp & H1 & H2) _ [c IH]]; [by eexists|].
  simpl. rewrite Hp.
  destruct (lookup_lt_is_Some_2 host1 idx H1) as [x Hx].
  destruct (lookup_lt_is_Some_2 host2 idx H2) as [y Hy].
  rewrite (threshold_test_values _ _ _ _ _ _ Hx Hy).
  repeat case_match; simpl; by eexists.
Qed.

(** X27: a comparison returns a value, one of -1, 0 and 1, whenever
    both results average without failure, every priority kind is in the
    index of GPU metric types, and the rows of non-GPU averages are long
    enough for the positions found there. *)
Theorem X27_comparison_succeeds {K : Type} `{RecordType K}
    {R : Type} `{Measured R} (self : t) (a b : R)
    (gpu_a host_a gpu_b host_b : list Q) :
  _average_measurements a = Ok (gpu_a, host_a) →
  _average_measurements b = Ok (gpu_b, host_b) →
  Forall (λ p, ∃ idx, _gpu_type_to_idx self !! p = Some idx
                      ∧ idx < length host_a ∧ idx < length host_b)
    (_metric_priorities self) →
  ∃ c, __call__ self a b = Ok c ∧ (c = (-1)%Z ∨ c = 0%Z ∨ c = 1%Z).
Proof.
  intros Ha Hb Hall.
  pose proof (call_range self a b) as Hrange. revert Hrange.
  unfold __call__. rewrite Ha, Hb. simpl.
  destruct (priority_loop_succeeds self _ gpu_a host_a gpu_b host_b Hall) as [c ->].
  intros Hc. by exists c.
Qed.

Lemma X27_comparison_succeeds_witness :
  ∃ c, __call__ Scenario.by_gpu_kind
         (Scenario.result_of Scenario.by_gpu_kind [] [[10%Q]])
         (Scenario.result_of Scenario.by_gpu_kind [] [[20%Q]]) = Ok c
       ∧ (c = (-1)%Z ∨ c = 0%Z ∨ c = 1%Z).
Proof.
  apply (X27_comparison_succeeds Scenario.by_gpu_kind _ _
           [] [10 * 1 / 1]%Q [] [20 * 1 / 1]%Q); [reflexivity | reflexivity |].
  constructor; [|constructor]. exists 0. split; [reflexivity|simpl; lia].
Defined.

Lemma priority_loop_self {K : Type} `{RecordType K} (self : t)
    (priorities : list K) (gpu host : list Q) (c : Z) :
  (0 <= _comparison_threshold_factor self)%Q →
  Forall (λ x, 0 <= x)%Q host →
  priority_loop self priorities gpu host gpu host = Ok c → c = 0%Z.
Proof.
  intros Ht Hpos. induction priorities as [|p rest IH]; simpl; [by intros [= <-]|].
  destruct (_gpu_type_to_idx self !! p) as [idx|]; [|done].
  destruct (threshold_test _ host host idx) as [decided| |] eqn:Htest; [|done..].
  destruct (threshold_test_inv _ _ _ _ _ Htest) as (x & y & Hx & Hy).
  assert (y = x) as -> by congruence.
  rewrite (threshold_test_values _ _ _ _ _ _ Hx Hx) in Htest.
  assert (0 <= x)%Q as Hx0
    by (eapply (proj1 (Forall_forall _ _) Hpos), list_elem_of_lookup_2, Hx).
  pose proof (Qmult_le_0_compat _ _ Ht Hx0) as HTx.
  rewrite (Qltb_ge (_comparison_threshold_factor self * x) (x - x)) in Htest by lra.
  rewrite (Qltb_ge (x - x) (- (_comparison_threshold_factor self * x))) in Htest by lra.
  injection Htest as <-. simpl. apply IH.
Qed.

(** X28: with a non-negative threshold factor and non-negative
    averages, a result compares equal to itself: whenever every priority
    kind is in the index of GPU metric types and the row of non-GPU
    averages is long enough, [compare(a, a)] is 0. *)
Theorem X28_equal_to_itself {K : Type} `{RecordType K}
    {R : Type} `{Measured R} (self : t) (a : R) (gpu_a host_a : list Q) :
  (0 <= _comparison_threshold_factor self)%Q →
  _average_measurements a = Ok (gpu_a, host_a) →
  Forall (λ x, 0 <= x)%Q host_a →
  Forall (λ p, ∃ idx, _gpu_type_to_idx self !! p = Some idx ∧ idx < length host_a)
    (_metric_priorities self) →
  __call__ self a a = Ok 0%Z.
Proof.
  intros Ht Ha Hpos Hall. unfold __call__. rewrite Ha. simpl.
  destruct (priority_loop_succeeds self (_metric_priorities self)
              gpu_a host_a gpu_a host_a) as [c Hc].
  { eapply Forall_impl; [exact Hall|]. intros p (idx & ? & ?). by exists idx. }
  rewrite Hc. f_equal. by eapply priority_loop_self.
Qed.

Lemma X28_equal_to_itself_witness :
  __call__ Scenario.by_gpu_kind
    (Scenario.result_of Scenario.by_gpu_kind [] [[10%Q]])
    (Scenario.result_of Scenario.by_gpu_kind [] [[10%Q]]) = Ok 0%Z.
Proof.
  apply (X28_equal_to_itself Scenario.by_gpu_kind
           (Scenario.result_of Scenario.by_gpu_kind [] [[10%Q]])
           [] [10 * 1 / 1]%Q).
  - vm_compute. discriminate.
  - reflexivity.
  - constructor; [vm_compute; discriminate|constructor].
  - constructor; [|constructor]. exists 0. split; [reflexivity|simpl; lia].
Defined.

End setup_and_success.
